(** * Anonymous e-cash driver: acceptance and double-spend resolution

    A shallow embedding of [src/task3/driver.js]: [parseCoin], [acceptCoin],
    [determineCheater] and the two spends that end the demo script.

    JavaScript values are modelled as follows.
    - A string is the list of its UTF-16 code units ([list N]).
    - A [Buffer] is the list of its octets ([list N], every element below 256
      whenever the buffer was produced by the functions of this file).
    - An array is a list; an index outside of it reads [undefined], which is
      [None] of stdpp's list lookup.
    - A thrown exception is the [Throw] constructor of [result]. *)

From Stdlib Require Import NArith String Ascii.
From stdpp Require Import base option list numbers.

Set Default Proof Using "Type".

(** ** Strings and buffers *)

(** The code units of an ASCII literal of the source. *)
Definition js (s : string) : list N :=
  N_of_ascii <$> list_ascii_of_string s.

(** [String.prototype.startsWith]: [p] is a prefix of [s], code unit by
    code unit. *)
Fixpoint startsWith (s p : list N) : bool :=
  match p, s with
  | [], _ => true
  | c :: p', d :: s' => (c =? d)%N && startsWith s' p'
  | _ :: _, [] => false
  end.

(** Value of one hexadecimal digit, [None] for any other code unit. *)
Definition unhex (c : N) : option N :=
  if ((48 <=? c) && (c <=? 57))%N then Some (c - 48)%N
  else if ((97 <=? c) && (c <=? 102))%N then Some (c - 87)%N
  else if ((65 <=? c) && (c <=? 70))%N then Some (c - 55)%N
  else None.

(** The digit the native hexadecimal decoder sees in a code unit: it reads
    the unit through its low eight bits. *)
Definition unhex_unit (c : N) : option N := unhex (c mod 256)%N.

(** [Buffer.from(s, 'hex')]: two digits per octet; decoding stops at the
    first pair that is not made of two hexadecimal digits, and a trailing
    single digit is dropped.  It never throws on a string. *)
Fixpoint Buffer_from_hex (s : list N) : list N :=
  match s with
  | hi :: lo :: rest =>
      match unhex_unit hi, unhex_unit lo with
      | Some a, Some b => (16 * a + b)%N :: Buffer_from_hex rest
      | _, _ => []
      end
  | _ => []
  end.

Definition hex_digit (d : N) : N :=
  if (d <? 10)%N then (48 + d)%N else (87 + d)%N.

(** [buf.toString('hex')]: two lower-case digits per octet. *)
Definition Buffer_toString_hex (buf : list N) : list N :=
  buf ≫= (λ b, [hex_digit (b / 16)%N; hex_digit (b mod 16)%N]).

(** [Buffer.alloc(n)]: [n] zero octets. *)
Definition Buffer_alloc (n : nat) : list N := replicate n 0%N.

(** [buf[j]] used as an operand of [^]: an index outside of the buffer reads
    [undefined], which [^] converts to 0. *)
Definition octet_at (buf : list N) (j : nat) : N := default 0%N (buf !! j).

(** [buf[j] = v]: the stored value is reduced to one octet; a store outside
    of the buffer is ignored. *)
Definition store_octet (buf : list N) (j : nat) (v : N) : list N :=
  <[j := (v mod 256)%N]> buf.

(** ** UTF-8 decoding ([buf.toString()])

    The decoder of the Encoding Standard: an ill-formed sequence yields one
    U+FFFD per maximal subpart, and the decoding never fails. *)

Inductive utf8_step :=
  | Emit (c : N)
  | Pending (cp : N) (remaining : nat) (lower upper : N).

(** What a byte does when no sequence is open. *)
Definition utf8_lead (b : N) : utf8_step :=
  if (b <=? 0x7F)%N then Emit b
  else if ((0xC2 <=? b) && (b <=? 0xDF))%N then
    Pending (N.land b 0x1F) 1 0x80%N 0xBF%N
  else if ((0xE0 <=? b) && (b <=? 0xEF))%N then
    Pending (N.land b 0xF) 2
            (if (b =? 0xE0)%N then 0xA0%N else 0x80%N)
            (if (b =? 0xED)%N then 0x9F%N else 0xBF%N)
  else if ((0xF0 <=? b) && (b <=? 0xF4))%N then
    Pending (N.land b 0x7) 3
            (if (b =? 0xF0)%N then 0x90%N else 0x80%N)
            (if (b =? 0xF4)%N then 0x8F%N else 0xBF%N)
  else Emit 0xFFFD%N.

(** The code points of a byte sequence; [st] is the open sequence, if any. *)
Fixpoint utf8_decode (st : option (N * nat * N * N)) (bytes : list N)
  : list N :=
  match bytes with
  | [] => match st with None => [] | Some _ => [0xFFFD%N] end
  | b :: rest =>
      match st with
      | Some (cp, remaining, lower, upper) =>
          if ((lower <=? b) && (b <=? upper))%N then
            let cp' := N.lor (N.shiftl cp 6) (N.land b 0x3F) in
            match remaining with
            | S (S r) => utf8_decode (Some (cp', S r, 0x80%N, 0xBF%N)) rest
            | _ => cp' :: utf8_decode None rest
            end
          else
            (* the open sequence is ill-formed; [b] is read again *)
            0xFFFD%N ::
            match utf8_lead b with
            | Emit c => c :: utf8_decode None rest
            | Pending cp' r lo hi => utf8_decode (Some (cp', r, lo, hi)) rest
            end
      | None =>
          match utf8_lead b with
          | Emit c => c :: utf8_decode None rest
          | Pending cp' r lo hi => utf8_decode (Some (cp', r, lo, hi)) rest
          end
      end
  end.

(** UTF-16 code units of one code point. *)
Definition utf16_units (c : N) : list N :=
  if (c <? 0x10000)%N then [c]
  else [(0xD800 + (c - 0x10000) / 0x400)%N; (0xDC00 + (c - 0x10000) mod 0x400)%N].

(** [buf.toString()], the default encoding being UTF-8. *)
Definition Buffer_toString (buf : list N) : list N :=
  utf8_decode None buf ≫= utf16_units.

(** ** Outcomes *)

(** The exceptions of the driver.  The three [Error]s are named after the
    kinds of the specification; [TypeError] is the runtime's, raised when a
    method is called on [undefined]. *)
Inductive error :=
  | InvalidSignature                     (* "Invalid coin signature." *)
  | MalformedCoin                        (* "Invalid identity string: ..." *)
  | ShareCommitmentMismatch (i : nat)    (* "RIS hash mismatch at index i" *)
  | TypeError.

Inductive result (A : Type) :=
  | Ok (a : A)
  | Throw (e : error).
Arguments Ok {A} a.
Arguments Throw {A} e.

Global Instance result_fmap : FMap result :=
  λ A B f r, match r with Ok a => Ok (f a) | Throw e => Throw e end.

(** What [determineCheater] prints: the buyer line carries the decoded XOR
    string, the merchant line carries nothing. *)
Inductive Verdict :=
  | BuyerIdentified (id : list N)
  | MerchantSuspected.

(** The line written by [console.log] for a verdict. *)
Definition console_line (v : Verdict) : list N :=
  match v with
  | BuyerIdentified xorStr =>
      js "Double-spending detected! Cheater is the buyer. ID: " ++ xorStr
  | MerchantSuspected =>
      js "Double-spending detected! Cheater is the merchant."
  end.

(** ** Double-spend resolution *)

Section Resolution.

(** Constants of [coin.js]. *)
Variable COIN_RIS_LENGTH : nat.
Variable IDENT_STR : list N.

(** The inner loop, [for (let j = 0; j < buf1.length; j++)], with [n]
    iterations left. *)
Fixpoint xor_loop (buf1 buf2 : list N) (j n : nat) (xor : list N) : list N :=
  match n with
  | O => xor
  | S n' =>
      xor_loop buf1 buf2 (S j) n'
               (store_octet xor j (N.lxor (octet_at buf1 j) (octet_at buf2 j)))
  end.

(** The body of one round up to [xorStr]. *)
Definition round_xor (s1 s2 : list N) : list N :=
  let buf1 := Buffer_from_hex s1 in
  let buf2 := Buffer_from_hex s2 in
  xor_loop buf1 buf2 0 (length buf1) (Buffer_alloc (length buf1)).

Definition round_xorStr (s1 s2 : list N) : list N :=
  Buffer_toString (round_xor s1 s2).

(** The outer loop from round [i], with [n] rounds left.  [ris1[i]] and
    [ris2[i]] are read in this order; [Buffer.from(undefined, 'hex')]
    throws a [TypeError]. *)
Fixpoint cheater_loop (ris1 ris2 : list (list N)) (i n : nat)
  : result Verdict :=
  match n with
  | O => Ok MerchantSuspected
  | S n' =>
      match ris1 !! i with
      | None => Throw TypeError
      | Some s1 =>
          match ris2 !! i with
          | None => Throw TypeError
          | Some s2 =>
              let xorStr := round_xorStr s1 s2 in
              if startsWith xorStr IDENT_STR
              then Ok (BuyerIdentified xorStr)
              else cheater_loop ris1 ris2 (S i) n'
          end
      end
  end.

Definition determineCheater (guid : list N) (ris1 ris2 : list (list N))
  : result Verdict :=
  cheater_loop ris1 ris2 0 COIN_RIS_LENGTH.

End Resolution.

(** ** Coins *)

Module Coin.

(** Modelled from the spec: the class [Coin] of [coin.js] is not part of
    the sources; the fields are those of the data model, under the names
    the driver reads ([coin.signature], [coin.n], [coin.e], [coin.guid],
    [coin.blinded]).  [signature] is [None] until it is assigned. *)
Record t := mk {
  amount : N;
  guid : list N;
  n : list N;
  e : list N;
  coinString : list N;
  leftIdent : list (list N);
  rightIdent : list (list N);
  blinded : N;
  signature : option N;
}.

(** Modelled from the spec: [coin.toString()] is the commitment string. *)
Definition toString (c : t) : list N := coinString c.

(** Modelled from the spec: [coin.getRis(isLeft, i)] is [reveal_share],
    the left or the right share of round [i], read-only. *)
Definition getRis (c : t) (isLeft : bool) (i : nat) : option (list N) :=
  if isLeft then leftIdent c !! i else rightIdent c !! i.



End Coin.

(** ** Parsing the commitment string *)

(** [s.split(sep)] for a separator of one code unit: never empty. *)
Fixpoint split (sep : N) (s : list N) : list (list N) :=
  match s with
  | [] => [[]]
  | c :: s' =>
      if (c =? sep)%N then [] :: split sep s'
      else match split sep s' with
           | p :: ps => (c :: p) :: ps
           | [] => [[c]]
           end
  end.

Definition dash : N := 45.
Definition comma : N := 44.

Section Parse.

Variable BANK_STR : list N.

(** The five names of the destructuring are the first five pieces;
    [amt] and [guid] are not used. *)
Definition parseCoin (s : list N)
  : result (list (list N) * list (list N)) :=
  let pieces := split dash s in
  if bool_decide (pieces !! 0 = Some BANK_STR) then
    match pieces !! 3 with
    | None => Throw TypeError
    | Some leftHashes =>
        let lh := split comma leftHashes in
        match pieces !! 4 with
        | None => Throw TypeError
        | Some rightHashes =>
            let rh := split comma rightHashes in
            Ok (lh, rh)
        end
    end
  else Throw MalformedCoin.

End Parse.

(** ** Acceptance *)

Section Acceptance.

(** External capabilities: the generator behind [utils.randInt], of which
    only the state-passing interface is known, [utils.hash] and
    [blindSignatures.verify], taken as total functions of their
    arguments. *)
Variable Rng : Type.
Variable randInt : N → Rng → N * Rng.
Variable hash : list N → list N.
Variable verify : option N → list N → list N → list N → bool.

Variable BANK_STR : list N.
Variable COIN_RIS_LENGTH : nat.

(** The mutable world of one call: the coin object the argument refers
    to, and the generator. *)
Record World := mkWorld { the_coin : Coin.t; the_rng : Rng }.

(** Computations that read and write the world and may throw. *)
Definition M (A : Type) : Type := World → result A * World.

Definition ret {A} (a : A) : M A := λ w, (Ok a, w).
Definition throw {A} (err : error) : M A := λ w, (Throw err, w).
Definition bind {A B} (m : M A) (k : A → M B) : M B :=
  λ w, match m w with
       | (Ok a, w') => k a w'
       | (Throw err, w') => (Throw err, w')
       end.
Definition lift {A} (r : result A) : M A := λ w, (r, w).

(** Reading the object behind the reference [coin]. *)
Definition coin : M Coin.t := λ w, (Ok (the_coin w), w).

(** [utils.randInt(range)]: advances the generator. *)
Definition draw (range : N) : M N :=
  λ w, let (v, g) := randInt range (the_rng w) in
       (Ok v, mkWorld (the_coin w) g).

Notation "x <- m ;; k" := (bind m (λ x, k))
  (at level 100, m at next level, right associativity).

(** The loop of step 2 from round [i], with [k] rounds left; [ris] is
    the array built so far. *)
Fixpoint gather (leftHashes rightHashes : list (list N)) (i k : nat)
         (ris : list (list N)) : M (list (list N)) :=
  match k with
  | O => ret ris
  | S k' =>
      r <- draw 2 ;;
      let chooseLeft := (r =? 0)%N in
      c <- coin ;;
      match Coin.getRis c chooseLeft i with
      | None => throw TypeError   (* no share to hash or to print *)
      | Some part =>
          let hashed := hash part in
          let expected :=
            if chooseLeft then leftHashes !! i else rightHashes !! i in
          if bool_decide (Some hashed = expected) then
            gather leftHashes rightHashes (S i) k'
                   (ris ++ [Buffer_toString_hex part])
          else throw (ShareCommitmentMismatch i)
      end
  end.

Definition acceptCoin : M (list (list N)) :=
  c <- coin ;;
  let valid :=
    verify (Coin.signature c) (Coin.n c) (Coin.e c) (Coin.toString c) in
  if negb valid then throw InvalidSignature
  else
    c <- coin ;;
    hashes <- lift (parseCoin BANK_STR (Coin.toString c)) ;;
    let (leftHashes, rightHashes) := hashes in
    gather leftHashes rightHashes 0 COIN_RIS_LENGTH [].

End Acceptance.

Arguments mkWorld {Rng} the_coin the_rng.
Arguments the_coin {Rng} w.
Arguments the_rng {Rng} w.
Arguments ret {Rng A} a w.
Arguments lift {Rng A} r w.
Arguments bind {Rng A B} m k w.
Arguments throw {Rng A} err w.
Arguments coin {Rng} w.
Arguments draw {Rng} randInt range w.
Arguments gather {Rng} randInt hash leftHashes rightHashes i k ris w.
Arguments acceptCoin {Rng} randInt hash verify BANK_STR COIN_RIS_LENGTH w.

(** ** Notions of the specification *)

(** Round [i] of two share sets reveals the marker: both entries exist and
    their XOR decodes to a string that starts with it. *)
Definition marker_at (IDENT_STR : list N) (ris1 ris2 : list (list N))
           (i : nat) : bool :=
  match ris1 !! i, ris2 !! i with
  | Some s1, Some s2 => startsWith (round_xorStr s1 s2) IDENT_STR
  | _, _ => false
  end.

(** The specification's [owner_identity] of a decoded XOR string, written
    after its words: the remainder after the marker. *)
Definition identity_after_marker (IDENT_STR xorStr : list N) : list N :=
  drop (length IDENT_STR) xorStr.

(** The sides chosen by the first [k] draws of a generator: [true] is
    [chooseLeft]. *)
Fixpoint sides {Rng} (randInt : N → Rng → N * Rng) (g : Rng) (k : nat)
  : list bool :=
  match k with
  | O => []
  | S k' => let (v, g') := randInt 2%N g in (v =? 0)%N :: sides randInt g' k'
  end.

(** The committed hash of a side of round [i], [undefined] outside of the
    parsed arrays. *)
Definition committed (leftHashes rightHashes : list (list N))
           (side : bool) (i : nat) : option (list N) :=
  if side then leftHashes !! i else rightHashes !! i.

(** The share of [side] in round [i] exists and hashes to the committed
    hash. *)
Definition share_matches (hash : list N → list N) (c : Coin.t)
           (leftHashes rightHashes : list (list N))
           (side : bool) (i : nat) : bool :=
  match Coin.getRis c side i with
  | Some part =>
      bool_decide (Some (hash part) = committed leftHashes rightHashes side i)
  | None => false
  end.

(** The outcome of the gathering loop as a function of the sides drawn. *)
Fixpoint gathered (hash : list N → list N) (c : Coin.t)
         (leftHashes rightHashes : list (list N))
         (sd : list bool) (i : nat) (ris : list (list N))
  : result (list (list N)) :=
  match sd with
  | [] => Ok ris
  | side :: sd' =>
      match Coin.getRis c side i with
      | None => Throw TypeError
      | Some part =>
          if bool_decide
               (Some (hash part) = committed leftHashes rightHashes side i)
          then gathered hash c leftHashes rightHashes sd' (S i)
                        (ris ++ [Buffer_toString_hex part])
          else Throw (ShareCommitmentMismatch i)
      end
  end.

(** ** A deterministic instance of the external capabilities

    Stand-ins for the generator, the hash and the signature check, used to
    run the driver on concrete coins: the generator state is a number whose
    binary digits are the draws, the hash is the hexadecimal form, and a
    signature is valid when it is the length of the message. *)

Definition fake_randInt (range : N) (g : N) : N * N :=
  ((g mod range)%N, (g / range)%N).

Definition fake_hash (part : list N) : list N := Buffer_toString_hex part.

Definition fake_verify (sig : option N) (n e message : list N) : bool :=
  bool_decide (sig = Some (N.of_nat (length message))).

Definition fake_coin (coinString : list N) (signature : option N) : Coin.t :=
  Coin.mk 20 (js "guid") (js "33") (js "3") coinString
          [[1%N]; [2%N]] [[3%N]; [4%N]] 0 signature.

(** ** Notions used to state how the pieces fit together *)

(** [arr.join(sep)] for a separator of one code unit, the inverse of
    [split]; the commitment string that [parseCoin] expects is such a join. *)
Fixpoint join (sep : N) (arr : list (list N)) : list N :=
  match arr with
  | [] => []
  | [p] => p
  | p :: rest => p ++ sep :: join sep rest
  end.

(** Number of occurrences of a code unit in a string. *)
Fixpoint occurrences (c : N) (s : list N) : nat :=
  match s with
  | [] => 0
  | d :: s' => (if (d =? c)%N then 1 else 0) + occurrences c s'
  end.

(** The generator after [k] draws of [randInt(2)]. *)
Fixpoint advance {Rng} (randInt : N → Rng → N * Rng) (g : Rng) (k : nat)
  : Rng :=
  match k with
  | O => g
  | S k' => advance randInt (randInt 2%N g).2 k'
  end.

(** The coin commits to an identity: in every round it holds two shares of
    one length whose hashes are the committed ones and whose XOR decodes to
    a string that starts with the marker. *)
Definition identity_committed (hash : list N → list N) (IDENT_STR : list N)
           (COIN_RIS_LENGTH : nat) (c : Coin.t)
           (leftHashes rightHashes : list (list N)) : Prop :=
  ∀ i, i < COIN_RIS_LENGTH →
    ∃ l r,
      Coin.leftIdent c !! i = Some l ∧ Coin.rightIdent c !! i = Some r ∧
      leftHashes !! i = Some (hash l) ∧ rightHashes !! i = Some (hash r) ∧
      Forall (λ b, (b < 256)%N) l ∧ Forall (λ b, (b < 256)%N) r ∧
      length l = length r ∧
      startsWith (Buffer_toString (zip_with N.lxor l r)) IDENT_STR = true.

(** ** The end of the demo script *)

Section Demo.

Context {Rng : Type}.
Variable randInt : N → Rng → N * Rng.
Variable hash : list N → list N.
Variable verify : option N → list N → list N → list N → bool.
Variable BANK_STR : list N.
Variable COIN_RIS_LENGTH : nat.
Variable IDENT_STR : list N.

Notation "x <- m ;; k" := (bind m (λ x, k))
  (at level 100, m at next level, right associativity).

(** Lines 126 to 138 of the driver: the coin is accepted by two merchants,
    then the two share sets are resolved, then the first one against
    itself.  The result is the pair of the two verdicts printed. *)
Definition spend_twice_and_resolve : M Rng (Verdict * Verdict) :=
  ris1 <- acceptCoin randInt hash verify BANK_STR COIN_RIS_LENGTH ;;
  ris2 <- acceptCoin randInt hash verify BANK_STR COIN_RIS_LENGTH ;;
  c <- coin ;;
  buyer_case <-
    lift (determineCheater COIN_RIS_LENGTH IDENT_STR (Coin.guid c) ris1 ris2) ;;
  merchant_case <-
    lift (determineCheater COIN_RIS_LENGTH IDENT_STR (Coin.guid c) ris1 ris1) ;;
  ret (buyer_case, merchant_case).

End Demo.

(** A coin of two rounds that commits to "IDENT-alice" under the stand-in
    hash and signature check. *)
Definition alice_coin : Coin.t :=
  Coin.mk 20 (js "guid") (js "33") (js "3")
          (js "BANK-20-guid-6e340b9cffb37a989ca544,4bf5122f344554c53bde2e-27704ed2ab9e1bf4f5c621,02b15761606835a952bd4b")
          [Buffer_from_hex (js "6e340b9cffb37a989ca544");
           Buffer_from_hex (js "4bf5122f344554c53bde2e")]
          [Buffer_from_hex (js "27704ed2ab9e1bf4f5c621");
           Buffer_from_hex (js "02b15761606835a952bd4b")]
          0 (Some 104%N).

(** * Properties *)

(** The two calls that end the demo script, on a coin of one round: the
    buyer line carries the whole decoded string. *)
Example demo_buyer :
  console_line <$> determineCheater 1 (js "IDENT") (js "guid")
                     [js "4944454e543a616c696365"] [js "0000000000000000000000"]
  = Ok (js "Double-spending detected! Cheater is the buyer. ID: IDENT:alice").
Proof. vm_compute. reflexivity. Qed.

(** A code unit above 255 is read through its low eight bits: U+0131 and
    U+0132 count as the digits 1 and 2. *)
Example from_hex_reads_low_bits :
  Buffer_from_hex [0x131; 0x132]%N = [0x12%N].
Proof. vm_compute. reflexivity. Qed.

Example demo_merchant :
  console_line <$> determineCheater 1 (js "IDENT") (js "guid")
                     [js "4944454e543a616c696365"] [js "4944454e543a616c696365"]
  = Ok (js "Double-spending detected! Cheater is the merchant.").
Proof. vm_compute. reflexivity. Qed.

(** ** Buffers *)

Lemma unhex_lt_16 c d : unhex c = Some d → (d < 16)%N.
Proof.
  unfold unhex. intros H.
  repeat match type of H with
         | (if ?b then _ else _) = _ => destruct b eqn:?
         end; simplify_eq;
    repeat match goal with
           | E : (_ && _) = true |- _ => apply andb_prop in E as [? ?]
           | E : (_ <=? _)%N = true |- _ => apply N.leb_le in E
           end; lia.
Qed.

Lemma Buffer_from_hex_ind (P : list N → list N → Prop) :
  P [] [] →
  (∀ c, P [c] []) →
  (∀ hi lo rest, P rest (Buffer_from_hex rest) →
                 P (hi :: lo :: rest) (Buffer_from_hex (hi :: lo :: rest))) →
  ∀ s, P s (Buffer_from_hex s).
Proof.
  intros Hnil Hone Hpair.
  assert (H : ∀ s, P s (Buffer_from_hex s) ∧
                   ∀ c, P (c :: s) (Buffer_from_hex (c :: s))).
  { induction s as [|c s [IH1 IH2]].
    - split; [exact Hnil | exact Hone].
    - split; [apply IH2 |]. intros c'. by apply Hpair. }
  intros s. apply H.
Qed.

(** Every octet decoded from hexadecimal is below 256. *)
Lemma Buffer_from_hex_octets s : Forall (λ b, (b < 256)%N) (Buffer_from_hex s).
Proof.
  apply (Buffer_from_hex_ind (λ _ buf, Forall (λ b, (b < 256)%N) buf));
    [constructor | constructor |].
  intros hi lo rest IH. cbn [Buffer_from_hex].
  destruct (unhex_unit hi) as [a|] eqn:Ha; [|constructor].
  destruct (unhex_unit lo) as [b|] eqn:Hb; [|constructor].
  constructor; [|exact IH].
  apply unhex_lt_16 in Ha, Hb. lia.
Qed.

Lemma lxor_octet a b : (a < 256)%N → (b < 256)%N → (N.lxor a b < 256)%N.
Proof.
  intros Ha Hb.
  destruct (decide (N.lxor a b = 0%N)) as [->|Hne]; [lia|].
  change 256%N with (2 ^ 8)%N. apply N.log2_lt_pow2; [lia|].
  eapply N.le_lt_trans; [apply N.log2_lxor|].
  apply N.max_lub_lt.
  - destruct (decide (a = 0%N)) as [->|]; [simpl; lia|].
    apply N.log2_lt_pow2; lia.
  - destruct (decide (b = 0%N)) as [->|]; [simpl; lia|].
    apply N.log2_lt_pow2; lia.
Qed.

(** The inner loop writes the octets [j .. j+n) and leaves the others. *)
Lemma xor_loop_length buf1 buf2 n : ∀ j xor,
  length (xor_loop buf1 buf2 j n xor) = length xor.
Proof.
  induction n as [|n IH]; intros j xor; simpl; [done|].
  rewrite IH. unfold store_octet. by rewrite length_insert.
Qed.

Lemma xor_loop_lookup buf1 buf2 n : ∀ j xor m,
  j + n ≤ length xor →
  xor_loop buf1 buf2 j n xor !! m =
    if bool_decide (j ≤ m < j + n)
    then Some (N.lxor (octet_at buf1 m) (octet_at buf2 m) mod 256)%N
    else xor !! m.
Proof.
  induction n as [|n IH]; intros j xor m Hlen; simpl.
  - rewrite bool_decide_eq_false_2; [done | lia].
  - rewrite IH by (unfold store_octet; rewrite length_insert; lia).
    unfold store_octet.
    destruct (decide (m = j)) as [->|Hne].
    + rewrite bool_decide_eq_false_2 by lia.
      rewrite bool_decide_eq_true_2 by lia.
      apply list_lookup_insert_eq. lia.
    + rewrite list_lookup_insert_ne by done.
      destruct (decide (S j ≤ m < S j + n)).
      * rewrite !bool_decide_eq_true_2 by lia. done.
      * rewrite !bool_decide_eq_false_2 by lia. done.
Qed.

Lemma round_xor_length s1 s2 :
  length (round_xor s1 s2) = length (Buffer_from_hex s1).
Proof.
  unfold round_xor. rewrite xor_loop_length.
  unfold Buffer_alloc. by rewrite length_replicate.
Qed.

(** Octet [j] of a round's XOR: the octet of the first entry, XORed with
    the octet of the second entry when it has one. *)
Lemma round_xor_lookup s1 s2 j b1 :
  Buffer_from_hex s1 !! j = Some b1 →
  round_xor s1 s2 !! j = Some (N.lxor b1 (octet_at (Buffer_from_hex s2) j)).
Proof.
  intros Hb1. pose proof (lookup_lt_Some _ _ _ Hb1) as Hj.
  unfold round_xor.
  rewrite xor_loop_lookup
    by (unfold Buffer_alloc; rewrite length_replicate; lia).
  rewrite bool_decide_eq_true_2 by lia.
  unfold octet_at at 1. rewrite Hb1. simpl.
  f_equal. apply N.mod_small. apply lxor_octet.
  - pose proof (Buffer_from_hex_octets s1) as H.
    rewrite Forall_lookup in H. by apply (H j).
  - unfold octet_at.
    destruct (Buffer_from_hex s2 !! j) as [b2|] eqn:Hb2; simpl; [|lia].
    pose proof (Buffer_from_hex_octets s2) as H.
    rewrite Forall_lookup in H. by apply (H j).
Qed.

(** A share XORed with itself is all zeros. *)
Lemma round_xor_self s :
  round_xor s s = replicate (length (Buffer_from_hex s)) 0%N.
Proof.
  apply list_eq. intros j.
  destruct (Buffer_from_hex s !! j) as [b|] eqn:Hb.
  - rewrite (round_xor_lookup _ _ _ _ Hb).
    unfold octet_at. rewrite Hb. simpl. rewrite N.lxor_nilpotent.
    symmetry. apply lookup_replicate_2. by eapply lookup_lt_Some.
  - apply lookup_ge_None in Hb.
    rewrite (lookup_ge_None_2 (round_xor s s)) by (by rewrite round_xor_length).
    symmetry. apply lookup_ge_None_2. by rewrite length_replicate.
Qed.

(** Zero octets decode to as many NUL characters. *)
Lemma Buffer_toString_zeros m :
  Buffer_toString (replicate m 0%N) = replicate m 0%N.
Proof.
  unfold Buffer_toString.
  assert (utf8_decode None (replicate m 0%N) = replicate m 0%N) as ->.
  { induction m as [|m IH]; [done|].
    change (replicate (S m) 0%N) with (0%N :: replicate m 0%N).
    cbn [utf8_decode]. change (utf8_lead 0) with (Emit 0).
    cbv iota. by rewrite IH. }
  induction m as [|m IH]; [done|].
  change (replicate (S m) 0%N) with (0%N :: replicate m 0%N).
  rewrite bind_cons, IH. done.
Qed.

Lemma startsWith_zeros p m :
  (∃ c, c ∈ p ∧ c ≠ 0%N) → startsWith (replicate m 0%N) p = false.
Proof.
  intros (c & Hin & Hc). revert m.
  induction p as [|d p IH]; intros m; [by apply elem_of_nil in Hin|].
  destruct m as [|m]; simpl; [done|].
  destruct (N.eqb_spec d 0) as [->|Hd]; simpl; [|done].
  apply IH. apply elem_of_cons in Hin as [->|Hin]; done.
Qed.

(** ** Resolution *)

Section ResolutionFacts.

Variable IDENT_STR : list N.
Variables ris1 ris2 : list (list N).

(** With both arrays long enough, no round can throw. *)
Lemma cheater_loop_total n : ∀ i,
  i + n ≤ length ris1 → i + n ≤ length ris2 →
  ∃ v, cheater_loop IDENT_STR ris1 ris2 i n = Ok v.
Proof.
  induction n as [|n IH]; intros i H1 H2; simpl; [by eexists|].
  destruct (lookup_lt_is_Some_2 ris1 i) as [s1 ->]; [lia|].
  destruct (lookup_lt_is_Some_2 ris2 i) as [s2 ->]; [lia|].
  destruct (startsWith _ _); [by eexists|].
  apply IH; lia.
Qed.

(** The loop stops at the first round that reveals the marker. *)
Lemma cheater_loop_hit d : ∀ n i s1 s2,
  d < n →
  ris1 !! (i + d) = Some s1 → ris2 !! (i + d) = Some s2 →
  startsWith (round_xorStr s1 s2) IDENT_STR = true →
  (∀ j, i ≤ j < i + d → marker_at IDENT_STR ris1 ris2 j = false) →
  cheater_loop IDENT_STR ris1 ris2 i n
  = Ok (BuyerIdentified (round_xorStr s1 s2)).
Proof.
  induction d as [|d IH]; intros n i s1 s2 Hn H1 H2 Hhit Hmiss;
    (destruct n as [|n]; [lia|]); simpl.
  - rewrite Nat.add_0_r in H1, H2. by rewrite H1, H2, Hhit.
  - assert (is_Some (ris1 !! i)) as [t1 Ht1].
    { apply lookup_lt_is_Some_2. apply lookup_lt_Some in H1. lia. }
    assert (is_Some (ris2 !! i)) as [t2 Ht2].
    { apply lookup_lt_is_Some_2. apply lookup_lt_Some in H2. lia. }
    pose proof (Hmiss i ltac:(lia)) as Hi.
    unfold marker_at in Hi. rewrite Ht1, Ht2 in Hi.
    rewrite Ht1, Ht2, Hi.
    apply IH; [lia | | | done |].
    + by replace (S i + d) with (i + S d) by lia.
    + by replace (S i + d) with (i + S d) by lia.
    + intros j Hj. apply Hmiss. lia.
Qed.

(** Below any bound, either no round reveals the marker or there is a
    first one that does. *)
Lemma first_marker_round n :
  (∀ j, j < n → marker_at IDENT_STR ris1 ris2 j = false) ∨
  (∃ i0, i0 < n ∧ marker_at IDENT_STR ris1 ris2 i0 = true ∧
         ∀ j, j < i0 → marker_at IDENT_STR ris1 ris2 j = false).
Proof.
  induction n as [|n [IH|(i0 & Hlt & Hhit & Hmiss)]].
  - left. intros j Hj. lia.
  - destruct (marker_at IDENT_STR ris1 ris2 n) eqn:Hn.
    + right. exists n. split; [lia|]. split; [done|]. exact IH.
    + left. intros j Hj.
      destruct (decide (j = n)) as [->|]; [done|]. apply IH. lia.
  - right. exists i0. split; [lia|]. by split.
Qed.

End ResolutionFacts.

(** The marker test only reads the entries of its own round. *)
Lemma marker_at_take IDENT_STR ris1 ris2 later1 later2 i j :
  j ≤ i → j < length ris1 → j < length ris2 →
  marker_at IDENT_STR (take (S i) ris1 ++ later1) (take (S i) ris2 ++ later2) j
  = marker_at IDENT_STR ris1 ris2 j.
Proof.
  intros Hj H1 H2. unfold marker_at.
  rewrite !lookup_app_l by (rewrite length_take; lia).
  rewrite !lookup_take_lt by lia. done.
Qed.

(** C1, as amended.  If some round below [COIN_RIS_LENGTH] reveals the
    marker, there is a first such round [i0]; [determineCheater] answers
    [BuyerIdentified] with the decoded XOR string of round [i0] in full
    (marker included, nothing stripped), and it does not read any entry
    after round [i0]: whatever replaces the later entries, the answer is
    the same. *)
Theorem first_marker_round_wins COIN_RIS_LENGTH IDENT_STR guid ris1 ris2 i :
  i < COIN_RIS_LENGTH →
  marker_at IDENT_STR ris1 ris2 i = true →
  ∃ i0 s1 s2,
    i0 ≤ i ∧ ris1 !! i0 = Some s1 ∧ ris2 !! i0 = Some s2 ∧
    startsWith (round_xorStr s1 s2) IDENT_STR = true ∧
    (∀ j, j < i0 → marker_at IDENT_STR ris1 ris2 j = false) ∧
    determineCheater COIN_RIS_LENGTH IDENT_STR guid ris1 ris2
    = Ok (BuyerIdentified (round_xorStr s1 s2)) ∧
    ∀ later1 later2,
      determineCheater COIN_RIS_LENGTH IDENT_STR guid
                       (take (S i0) ris1 ++ later1) (take (S i0) ris2 ++ later2)
      = Ok (BuyerIdentified (round_xorStr s1 s2)).
Proof.
  intros Hi Hhit.
  destruct (first_marker_round IDENT_STR ris1 ris2 (S i))
    as [Hnone|(i0 & Hlt & Hhit0 & Hmiss)].
  { rewrite Hnone in Hhit by lia. done. }
  pose proof Hhit0 as Hm. unfold marker_at in Hm.
  destruct (ris1 !! i0) as [s1|] eqn:H1; [|done].
  destruct (ris2 !! i0) as [s2|] eqn:H2; [|done].
  pose proof (lookup_lt_Some _ _ _ H1) as Hlen1.
  pose proof (lookup_lt_Some _ _ _ H2) as Hlen2.
  exists i0, s1, s2. repeat split; [lia | done | done | done | done | | ].
  - unfold determineCheater.
    apply (cheater_loop_hit IDENT_STR ris1 ris2 i0); [lia|done|done|done|].
    intros j Hj. apply Hmiss. lia.
  - intros later1 later2. unfold determineCheater.
    apply (cheater_loop_hit _ _ _ i0); [lia| | |done|].
    + rewrite lookup_app_l by (rewrite length_take; lia).
      by rewrite lookup_take_lt by lia.
    + rewrite lookup_app_l by (rewrite length_take; lia).
      by rewrite lookup_take_lt by lia.
    + intros j Hj. rewrite marker_at_take by lia. apply Hmiss. lia.
Qed.

Lemma first_marker_round_wins_witness :
  ∃ s1 s2,
    startsWith (round_xorStr s1 s2) (js "IDENT") = true ∧
    determineCheater 3 (js "IDENT") (js "guid")
      [js "6e340b9cffb37a989ca544"; js "02b15761606835a952bd4b";
       js "dbc1b4c900ffe48d575b5d"]
      [js "27704ed2ab9e1bf4f5c621"; js "02b15761606835a952bd4b";
       js "dbc1b4c900ffe48d575b5d"]
    = Ok (BuyerIdentified (round_xorStr s1 s2)).
Proof.
  destruct (first_marker_round_wins 3 (js "IDENT") (js "guid")
      [js "6e340b9cffb37a989ca544"; js "02b15761606835a952bd4b";
       js "dbc1b4c900ffe48d575b5d"]
      [js "27704ed2ab9e1bf4f5c621"; js "02b15761606835a952bd4b";
       js "dbc1b4c900ffe48d575b5d"] 0)
    as (i0 & s1 & s2 & _ & _ & _ & Hhit & _ & Hres & _).
  - lia.
  - vm_compute. reflexivity.
  - exists s1, s2. split; [exact Hhit | exact Hres].
Defined.

(** C1, as stated, fails on the payload.  In the scenario of the
    specification (identity "alice", three rounds, the merchants disagree
    on round 0 only) the XOR of round 0 decodes to "IDENT-alice"; the
    remainder after the marker is "-alice", and the driver reports the
    whole string "IDENT-alice". *)
Lemma buyer_id_is_whole_xor_string :
  let IDENT_STR := js "IDENT" in
  let ris1 := [js "6e340b9cffb37a989ca544"; js "02b15761606835a952bd4b";
               js "dbc1b4c900ffe48d575b5d"] in
  let ris2 := [js "27704ed2ab9e1bf4f5c621"; js "02b15761606835a952bd4b";
               js "dbc1b4c900ffe48d575b5d"] in
  let xorStr := round_xorStr (js "6e340b9cffb37a989ca544")
                             (js "27704ed2ab9e1bf4f5c621") in
  marker_at IDENT_STR ris1 ris2 0 = true ∧
  xorStr = js "IDENT-alice" ∧
  identity_after_marker IDENT_STR xorStr = js "-alice" ∧
  determineCheater 3 IDENT_STR (js "guid") ris1 ris2
  = Ok (BuyerIdentified (js "IDENT-alice")) ∧
  determineCheater 3 IDENT_STR (js "guid") ris1 ris2
  ≠ Ok (BuyerIdentified (identity_after_marker IDENT_STR xorStr)).
Proof. vm_compute. repeat split; discriminate. Qed.

(** C2.  When the marker has a character other than NUL, resolving a share
    set that has an entry for every round against itself answers
    [MerchantSuspected]: every XOR is all zeros and decodes to NULs. *)
Theorem replayed_share_set_suspects_merchant
        COIN_RIS_LENGTH IDENT_STR guid (ris : list (list N)) :
  (∃ c, c ∈ IDENT_STR ∧ c ≠ 0%N) →
  length ris = COIN_RIS_LENGTH →
  (∀ i s, ris !! i = Some s →
          round_xor s s = replicate (length (Buffer_from_hex s)) 0%N ∧
          startsWith (round_xorStr s s) IDENT_STR = false) ∧
  determineCheater COIN_RIS_LENGTH IDENT_STR guid ris ris = Ok MerchantSuspected.
Proof.
  intros Hmark Hlen.
  assert (Hround : ∀ s, startsWith (round_xorStr s s) IDENT_STR = false).
  { intros s. unfold round_xorStr.
    rewrite round_xor_self, Buffer_toString_zeros.
    by apply startsWith_zeros. }
  split.
  { intros i s _. split; [apply round_xor_self | apply Hround]. }
  unfold determineCheater.
  assert (H : ∀ n i, i + n ≤ length ris →
                     cheater_loop IDENT_STR ris ris i n = Ok MerchantSuspected).
  { induction n as [|n IH]; intros i Hi; simpl; [done|].
    destruct (lookup_lt_is_Some_2 ris i) as [s Hs]; [lia|].
    rewrite Hs, Hround. apply IH. lia. }
  apply H. lia.
Qed.

Lemma replayed_share_set_suspects_merchant_witness :
  determineCheater 3 (js "IDENT") (js "guid")
    [js "6e340b9cffb37a989ca544"; js "02b15761606835a952bd4b";
     js "dbc1b4c900ffe48d575b5d"]
    [js "6e340b9cffb37a989ca544"; js "02b15761606835a952bd4b";
     js "dbc1b4c900ffe48d575b5d"]
  = Ok MerchantSuspected.
Proof.
  apply (replayed_share_set_suspects_merchant 3 (js "IDENT") (js "guid")).
  - exists 73%N. split; [|discriminate].
    vm_compute. apply list_elem_of_here.
  - reflexivity.
Defined.

(** C5, as amended.  Unequal byte lengths in a round do not make
    resolution fail: for share sets with an entry for every round it still
    answers a verdict.  The XOR of such a round has the byte length of the
    first set's entry; an octet missing from the second entry counts as
    zero, and octets of the second entry beyond that length are not read. *)
Theorem unequal_lengths_still_resolve
        COIN_RIS_LENGTH IDENT_STR guid ris1 ris2 i s1 s2 :
  length ris1 = COIN_RIS_LENGTH →
  length ris2 = COIN_RIS_LENGTH →
  ris1 !! i = Some s1 → ris2 !! i = Some s2 →
  length (Buffer_from_hex s1) ≠ length (Buffer_from_hex s2) →
  (∃ v, determineCheater COIN_RIS_LENGTH IDENT_STR guid ris1 ris2 = Ok v) ∧
  length (round_xor s1 s2) = length (Buffer_from_hex s1) ∧
  ∀ j b1, Buffer_from_hex s1 !! j = Some b1 →
          round_xor s1 s2 !! j
          = Some (N.lxor b1 (default 0%N (Buffer_from_hex s2 !! j))).
Proof.
  intros H1 H2 _ _ _. split; [|split].
  - unfold determineCheater. apply cheater_loop_total; lia.
  - apply round_xor_length.
  - intros j b1 Hb1. by apply round_xor_lookup.
Qed.

Lemma unequal_lengths_still_resolve_witness :
  ∃ v, determineCheater 1 (js "IDENT") (js "guid") [js "00"] [js "0000"] = Ok v.
Proof.
  apply (unequal_lengths_still_resolve 1 (js "IDENT") (js "guid")
           [js "00"] [js "0000"] 0 (js "00") (js "0000"));
    [reflexivity | reflexivity | reflexivity | reflexivity |].
  vm_compute. discriminate.
Defined.

(** C5, as stated, fails: entries of one and of two octets, and of eleven
    and of no octet, are resolved to a verdict without any failure. *)
Lemma unequal_lengths_give_a_verdict :
  length (Buffer_from_hex (js "00")) = 1 ∧
  length (Buffer_from_hex (js "0000")) = 2 ∧
  determineCheater 1 (js "IDENT") (js "guid") [js "00"] [js "0000"]
  = Ok MerchantSuspected ∧
  length (Buffer_from_hex (js "4944454e542d616c696365")) = 11 ∧
  length (Buffer_from_hex (js "")) = 0 ∧
  determineCheater 1 (js "IDENT") (js "guid")
                   [js "4944454e542d616c696365"] [js ""]
  = Ok (BuyerIdentified (js "IDENT-alice")).
Proof. vm_compute. repeat split. Qed.

(** C7.  For two share sets with an entry for every round, resolution
    throws nothing and answers exactly one verdict, [BuyerIdentified] or
    [MerchantSuspected]. *)
Theorem resolution_is_total COIN_RIS_LENGTH IDENT_STR guid ris1 ris2 :
  length ris1 = COIN_RIS_LENGTH →
  length ris2 = COIN_RIS_LENGTH →
  (∀ i s1 s2, ris1 !! i = Some s1 → ris2 !! i = Some s2 →
              length (Buffer_from_hex s1) = length (Buffer_from_hex s2)) →
  ∃ v, determineCheater COIN_RIS_LENGTH IDENT_STR guid ris1 ris2 = Ok v ∧
       (v = MerchantSuspected ∨ ∃ id, v = BuyerIdentified id) ∧
       ∀ e, determineCheater COIN_RIS_LENGTH IDENT_STR guid ris1 ris2 ≠ Throw e.
Proof.
  intros H1 H2 _.
  destruct (cheater_loop_total IDENT_STR ris1 ris2 COIN_RIS_LENGTH 0)
    as [v Hv]; [lia | lia |].
  exists v. unfold determineCheater. rewrite Hv. split; [done|]. split.
  - destruct v as [id|]; [right; by exists id | by left].
  - intros e. discriminate.
Qed.

Lemma resolution_is_total_witness :
  ∃ v, determineCheater 3 (js "IDENT") (js "guid")
         [js "6e340b9cffb37a989ca544"; js "02b15761606835a952bd4b";
          js "dbc1b4c900ffe48d575b5d"]
         [js "27704ed2ab9e1bf4f5c621"; js "02b15761606835a952bd4b";
          js "dbc1b4c900ffe48d575b5d"] = Ok v.
Proof.
  destruct (resolution_is_total 3 (js "IDENT") (js "guid")
         [js "6e340b9cffb37a989ca544"; js "02b15761606835a952bd4b";
          js "dbc1b4c900ffe48d575b5d"]
         [js "27704ed2ab9e1bf4f5c621"; js "02b15761606835a952bd4b";
          js "dbc1b4c900ffe48d575b5d"]) as (v & Hv & _).
  - reflexivity.
  - reflexivity.
  - intros [|[|[|i]]] s1 s2 E1 E2; cbn in E1, E2; simplify_eq;
      vm_compute; reflexivity.
  - exists v. exact Hv.
Defined.

(** C10.  The verdict does not depend on the [guid] argument. *)
Theorem verdict_ignores_guid COIN_RIS_LENGTH IDENT_STR g1 g2 ris1 ris2 :
  determineCheater COIN_RIS_LENGTH IDENT_STR g1 ris1 ris2
  = determineCheater COIN_RIS_LENGTH IDENT_STR g2 ris1 ris2.
Proof. reflexivity. Qed.

(** ** Acceptance *)

Section AcceptanceFacts.

Variable Rng : Type.
Variable randInt : N → Rng → N * Rng.
Variable hash : list N → list N.
Variable verify : option N → list N → list N → list N → bool.
Variable BANK_STR : list N.

Variables leftHashes rightHashes : list (list N).

(** The loop leaves the coin as it is, and its outcome is a function of
    the coin and of the sides drawn. *)
Lemma gather_run k : ∀ i ris (w : World Rng),
  the_coin (gather randInt hash leftHashes rightHashes i k ris w).2
  = the_coin w ∧
  (gather randInt hash leftHashes rightHashes i k ris w).1
  = gathered hash (the_coin w) leftHashes rightHashes
             (sides randInt (the_rng w) k) i ris.
Proof.
  induction k as [|k IH]; intros i ris w; [done|].
  cbn [gather sides]. unfold bind, draw, coin, throw.
  destruct (randInt 2%N (the_rng w)) as [v g]. cbn.
  unfold committed.
  destruct (Coin.getRis (the_coin w) (v =? 0)%N i) as [part|]; [|done].
  case_bool_decide; [|done].
  apply (IH (S i) _ (mkWorld (the_coin w) g)).
Qed.

Lemma gathered_never_invalid_signature c sd : ∀ i ris,
  gathered hash c leftHashes rightHashes sd i ris ≠ Throw InvalidSignature.
Proof.
  induction sd as [|side sd IH]; intros i ris; simpl; [done|].
  destruct (Coin.getRis c side i); [|done].
  case_bool_decide; [apply IH | done].
Qed.

(** When every round matches, the loop returns the hexadecimal form of
    the revealed shares, in order, after what was gathered before. *)
Lemma gathered_all_match c sd : ∀ i ris,
  (∀ j side, sd !! j = Some side →
             share_matches hash c leftHashes rightHashes side (i + j) = true) →
  ∃ out, gathered hash c leftHashes rightHashes sd i ris = Ok out ∧
         length out = length ris + length sd ∧
         ∀ j side part,
           sd !! j = Some side → Coin.getRis c side (i + j) = Some part →
           out !! (length ris + j) = Some (Buffer_toString_hex part).
Proof.
  induction sd as [|side sd IH]; intros i ris Hall; simpl.
  - exists ris. split; [done|]. split; [lia|]. intros j side part Hj. done.
  - pose proof (Hall 0 side eq_refl) as H0.
    rewrite Nat.add_0_r in H0. unfold share_matches in H0.
    destruct (Coin.getRis c side i) as [part|] eqn:Hpart; [|done].
    rewrite H0.
    destruct (IH (S i) (ris ++ [Buffer_toString_hex part]))
      as (out & Hout & Hlen & Hlook).
    { intros j side' Hj. replace (S i + j) with (i + S j) by lia.
      by apply Hall. }
    rewrite length_app in Hlen, Hlook. simpl in Hlen, Hlook.
    exists out. split; [done|]. split; [lia|].
    intros [|j] side' part' Hj Hp; simpl in Hj.
    + rewrite Nat.add_0_r in *. simplify_eq.
      assert (∀ sd' i' acc out',
                 gathered hash c leftHashes rightHashes sd' i' acc = Ok out' →
                 ∀ m x, acc !! m = Some x → out' !! m = Some x) as Hkeep.
      { clear. induction sd' as [|s sd' IH']; intros i' acc out' H m x Hm;
          simpl in H; [by simplify_eq|].
        destruct (Coin.getRis c s i'); [|done].
        case_bool_decide; [|done].
        eapply IH'; [exact H|]. by apply lookup_app_l_Some. }
      eapply Hkeep; [exact Hout|].
      rewrite lookup_app_r by lia. by rewrite Nat.sub_diag.
    + replace (length ris + S j) with (length ris + 1 + j) by lia.
      apply (Hlook j side'); [done|].
      rewrite <- Hp. f_equal. lia.
Qed.

(** A returned array means that every round matched. *)
Lemma gathered_ok_all_match c sd : ∀ i ris out,
  gathered hash c leftHashes rightHashes sd i ris = Ok out →
  ∀ j side, sd !! j = Some side →
            share_matches hash c leftHashes rightHashes side (i + j) = true.
Proof.
  induction sd as [|side sd IH]; intros i ris out H j side' Hj;
    [done|]. simpl in H.
  destruct (Coin.getRis c side i) as [part|] eqn:Hpart; [|done].
  case_bool_decide as Hm; [|done].
  destruct j as [|j]; simpl in Hj.
  - simplify_eq. rewrite Nat.add_0_r. unfold share_matches.
    rewrite Hpart. by apply bool_decide_eq_true_2.
  - replace (i + S j) with (S i + j) by lia. by eapply IH.
Qed.

(** The first round that does not match decides the exception. *)
Lemma gathered_first_mismatch c sd : ∀ i ris j side,
  sd !! j = Some side →
  is_Some (Coin.getRis c side (i + j)) →
  share_matches hash c leftHashes rightHashes side (i + j) = false →
  (∀ j' side', j' < j → sd !! j' = Some side' →
               share_matches hash c leftHashes rightHashes side' (i + j') = true) →
  gathered hash c leftHashes rightHashes sd i ris
  = Throw (ShareCommitmentMismatch (i + j)).
Proof.
  induction sd as [|side0 sd IH]; intros i ris j side Hj Hsome Hbad Hgood;
    [done|]. simpl.
  destruct j as [|j]; simpl in Hj.
  - simplify_eq. rewrite Nat.add_0_r in *.
    unfold share_matches in Hbad. destruct Hsome as [part Hpart].
    rewrite Hpart in Hbad |- *. by rewrite Hbad.
  - pose proof (Hgood 0 side0 ltac:(lia) eq_refl) as H0.
    rewrite Nat.add_0_r in H0. unfold share_matches in H0.
    destruct (Coin.getRis c side0 i) as [part|]; [|done].
    rewrite H0. replace (i + S j) with (S i + j) in * by lia.
    apply (IH (S i) _ j side); [done | done | done |].
    intros j' side' Hlt Hj'. replace (S i + j') with (i + S j') by lia.
    apply Hgood; [lia | done].
Qed.

Lemma parseCoin_never_invalid_signature s :
  parseCoin BANK_STR s ≠ Throw InvalidSignature.
Proof.
  unfold parseCoin. case_bool_decide; [|done].
  destruct (split dash s !! 3); [|done].
  destruct (split dash s !! 4); done.
Qed.

Lemma length_sides g k : length (sides randInt g k) = k.
Proof.
  revert g. induction k as [|k IH]; intros g; simpl; [done|].
  destruct (randInt 2%N g). simpl. by rewrite IH.
Qed.

End AcceptanceFacts.

Lemma acceptCoin_unfold {Rng} (randInt : N → Rng → N * Rng) hash verify
      BANK_STR COIN_RIS_LENGTH (w : World Rng) :
  acceptCoin randInt hash verify BANK_STR COIN_RIS_LENGTH w =
  let c := the_coin w in
  if verify (Coin.signature c) (Coin.n c) (Coin.e c) (Coin.toString c) then
    match parseCoin BANK_STR (Coin.toString c) with
    | Ok (leftHashes, rightHashes) =>
        gather randInt hash leftHashes rightHashes 0 COIN_RIS_LENGTH [] w
    | Throw err => (Throw err, w)
    end
  else (Throw InvalidSignature, w).
Proof.
  unfold acceptCoin, bind, coin, lift, throw. cbn.
  destruct (verify _ _ _ _); cbn; [|done].
  by destruct (parseCoin BANK_STR _) as [[lh rh]|err].
Qed.

(** C4.  [acceptCoin] checks [coin.signature] against [coin.toString()]
    under [coin.n] and [coin.e]: when the check fails it throws
    [InvalidSignature] with the world untouched (no draw was made, no share
    was read), and when the check succeeds it never throws
    [InvalidSignature]. *)
Theorem signature_checked_first {Rng} (randInt : N → Rng → N * Rng)
        (hash : list N → list N)
        (verify : option N → list N → list N → list N → bool)
        BANK_STR COIN_RIS_LENGTH (w : World Rng) :
  let c := the_coin w in
  if verify (Coin.signature c) (Coin.n c) (Coin.e c) (Coin.toString c)
  then (acceptCoin randInt hash verify BANK_STR COIN_RIS_LENGTH w).1
       ≠ Throw InvalidSignature
  else acceptCoin randInt hash verify BANK_STR COIN_RIS_LENGTH w
       = (Throw InvalidSignature, w).
Proof.
  rewrite acceptCoin_unfold. cbn zeta.
  destruct (verify _ _ _ _); [|done].
  destruct (parseCoin BANK_STR _) as [[lh rh]|err] eqn:Hparse.
  - rewrite (proj2 (gather_run _ randInt hash lh rh _ _ _ _)).
    apply gathered_never_invalid_signature.
  - cbn. intros H. injection H as ->.
    by apply parseCoin_never_invalid_signature in Hparse.
Qed.

(** C6, as amended.  A coin whose signature verifies and whose leading
    issuer tag is not [BANK_STR] is rejected with [MalformedCoin], with the
    world untouched: the tag is tested after the signature and before any
    share is drawn, read or hashed. *)
Theorem wrong_tag_rejected_after_signature {Rng}
        (randInt : N → Rng → N * Rng) (hash : list N → list N)
        (verify : option N → list N → list N → list N → bool)
        BANK_STR COIN_RIS_LENGTH (w : World Rng) :
  let c := the_coin w in
  verify (Coin.signature c) (Coin.n c) (Coin.e c) (Coin.toString c) = true →
  split dash (Coin.toString c) !! 0 ≠ Some BANK_STR →
  acceptCoin randInt hash verify BANK_STR COIN_RIS_LENGTH w
  = (Throw MalformedCoin, w).
Proof.
  intros c Hvalid Htag. rewrite acceptCoin_unfold. cbn zeta. fold c.
  rewrite Hvalid. unfold parseCoin.
  by rewrite bool_decide_eq_false_2.
Qed.

Lemma wrong_tag_rejected_after_signature_witness :
  let w := mkWorld (fake_coin (js "EVIL-20-guid-01,02-03,04") (Some 24%N)) 2%N in
  acceptCoin fake_randInt fake_hash fake_verify (js "BANK") 2 w
  = (Throw MalformedCoin, w).
Proof.
  apply (wrong_tag_rejected_after_signature fake_randInt fake_hash fake_verify
           (js "BANK") 2
           (mkWorld (fake_coin (js "EVIL-20-guid-01,02-03,04") (Some 24%N)) 2%N)).
  - vm_compute. reflexivity.
  - vm_compute. discriminate.
Defined.

(** C6, as stated, fails: a coin with a foreign issuer tag and a signature
    that does not verify is rejected with [InvalidSignature], the outcome
    of the signature check, and not with [MalformedCoin]. *)
Lemma wrong_tag_meets_signature_check_first :
  let c := fake_coin (js "EVIL-20-guid-01,02-03,04") None in
  let w := mkWorld c 2%N in
  split dash (Coin.toString c) !! 0 = Some (js "EVIL") ∧
  js "EVIL" ≠ js "BANK" ∧
  acceptCoin fake_randInt fake_hash fake_verify (js "BANK") 2 w
  = (Throw InvalidSignature, w) ∧
  (acceptCoin fake_randInt fake_hash fake_verify (js "BANK") 2 w).1
  ≠ Throw MalformedCoin.
Proof. vm_compute. repeat split; discriminate. Qed.

(** C3.  For a coin whose signature verifies, whose commitment string
    parses to [leftHashes] and [rightHashes], and which holds a share on
    both sides of every round: [acceptCoin] returns an array exactly when,
    in every round, the share of the drawn side hashes to the committed
    hash of that side; the array then has one entry per round, the
    hexadecimal form of the revealed share, in order; and at the first
    round that does not match it throws [ShareCommitmentMismatch] for that
    round, returning no array at all. *)
Theorem acceptance_iff_all_shares_match {Rng}
        (randInt : N → Rng → N * Rng) (hash : list N → list N)
        (verify : option N → list N → list N → list N → bool)
        BANK_STR COIN_RIS_LENGTH (w : World Rng) leftHashes rightHashes :
  let c := the_coin w in
  let sd := sides randInt (the_rng w) COIN_RIS_LENGTH in
  let outcome := (acceptCoin randInt hash verify BANK_STR COIN_RIS_LENGTH w).1 in
  verify (Coin.signature c) (Coin.n c) (Coin.e c) (Coin.toString c) = true →
  parseCoin BANK_STR (Coin.toString c) = Ok (leftHashes, rightHashes) →
  COIN_RIS_LENGTH ≤ length (Coin.leftIdent c) →
  COIN_RIS_LENGTH ≤ length (Coin.rightIdent c) →
  ((∃ ris, outcome = Ok ris) ↔
   (∀ i side, sd !! i = Some side →
              share_matches hash c leftHashes rightHashes side i = true)) ∧
  (∀ ris, outcome = Ok ris →
          length ris = COIN_RIS_LENGTH ∧
          ∀ i side part, sd !! i = Some side →
                         Coin.getRis c side i = Some part →
                         ris !! i = Some (Buffer_toString_hex part)) ∧
  (∀ i side,
      sd !! i = Some side →
      share_matches hash c leftHashes rightHashes side i = false →
      (∀ j side', j < i → sd !! j = Some side' →
                  share_matches hash c leftHashes rightHashes side' j = true) →
      outcome = Throw (ShareCommitmentMismatch i)).
Proof.
  intros c sd outcome Hvalid Hparse Hleft Hright.
  assert (Hout : outcome
                 = gathered hash c leftHashes rightHashes sd 0 []).
  { unfold outcome. rewrite acceptCoin_unfold. cbn zeta. fold c.
    rewrite Hvalid, Hparse.
    apply (proj2 (gather_run _ randInt hash leftHashes rightHashes _ _ _ _)). }
  rewrite Hout. clear Hout outcome.
  assert (Hok : ∀ ris,
             gathered hash c leftHashes rightHashes sd 0 [] = Ok ris →
             ∀ i side, sd !! i = Some side →
                       share_matches hash c leftHashes rightHashes side i = true).
  { intros ris H i side Hi.
    by apply (gathered_ok_all_match hash _ _ c sd 0 [] ris H i side). }
  split; [split|split].
  - intros [ris H]. by apply (Hok ris).
  - intros Hall.
    destruct (gathered_all_match hash leftHashes rightHashes c sd 0 [])
      as (out & H & _); [done | by exists out].
  - intros ris H.
    destruct (gathered_all_match hash leftHashes rightHashes c sd 0 [])
      as (out & H' & Hlen & Hlook); [by apply (Hok ris)|].
    rewrite H in H'. injection H' as <-. split.
    + rewrite Hlen. simpl. apply length_sides.
    + intros i side part Hi Hp. by apply (Hlook i side part).
  - intros i side Hi Hbad Hgood.
    apply (gathered_first_mismatch hash leftHashes rightHashes c sd 0 [] i side);
      [done | | done | done].
    apply lookup_lt_Some in Hi. unfold sd in Hi. rewrite length_sides in Hi.
    unfold Coin.getRis.
    destruct side; apply lookup_lt_is_Some_2; lia.
Qed.

Lemma acceptance_iff_all_shares_match_witness :
  let w := mkWorld (fake_coin (js "BANK-20-guid-01,02-03,04") (Some 24%N)) 2%N in
  (∃ ris, (acceptCoin fake_randInt fake_hash fake_verify (js "BANK") 2 w).1
          = Ok ris) ∧
  ∀ ris, (acceptCoin fake_randInt fake_hash fake_verify (js "BANK") 2 w).1
         = Ok ris → length ris = 2.
Proof.
  intros w.
  destruct (acceptance_iff_all_shares_match
              fake_randInt fake_hash fake_verify (js "BANK") 2 w
              [js "01"; js "02"] [js "03"; js "04"])
    as ([_ Hif] & Hshape & _).
  - vm_compute. reflexivity.
  - vm_compute. reflexivity.
  - simpl. lia.
  - simpl. lia.
  - split.
    + apply Hif. intros [|[|i]] side Hi; vm_compute in Hi; simplify_eq;
        vm_compute; reflexivity.
    + intros ris H. apply (Hshape ris H).
Defined.

(** C9.  [acceptCoin] does not change the coin: the coin object of the
    world after the call, with all its fields, is the one before the call,
    whether the call returned or threw. *)
Theorem acceptance_leaves_coin {Rng}
        (randInt : N → Rng → N * Rng) (hash : list N → list N)
        (verify : option N → list N → list N → list N → bool)
        BANK_STR COIN_RIS_LENGTH (w : World Rng) :
  the_coin (acceptCoin randInt hash verify BANK_STR COIN_RIS_LENGTH w).2
  = the_coin w.
Proof.
  rewrite acceptCoin_unfold. cbn zeta.
  destruct (verify _ _ _ _); [|done].
  destruct (parseCoin BANK_STR _) as [[lh rh]|err]; [|done].
  apply gather_run.
Qed.


(** * Further properties of the driver *)

(** ** Hexadecimal strings between [acceptCoin] and [determineCheater] *)

Lemma unhex_hex_digit d : (d < 16)%N → unhex_unit (hex_digit d) = Some d.
Proof.
  intros Hd. unfold unhex_unit.
  rewrite N.mod_small by (unfold hex_digit; destruct (d <? 10)%N; lia).
  unfold hex_digit, unhex.
  destruct (N.ltb_spec d 10).
  - destruct (N.leb_spec 48 (48 + d)); [|lia].
    destruct (N.leb_spec (48 + d) 57); [|lia].
    simpl. f_equal. lia.
  - destruct (N.leb_spec (87 + d) 57); [lia|].
    rewrite andb_false_r.
    destruct (N.leb_spec 97 (87 + d)); [|lia].
    destruct (N.leb_spec (87 + d) 102); [|lia].
    simpl. f_equal. lia.
Qed.

Lemma from_hex_to_hex (buf : list N) :
  Forall (λ b, (b < 256)%N) buf →
  Buffer_from_hex (Buffer_toString_hex buf) = buf.
Proof.
  induction 1 as [|b buf Hb _ IH]; [done|].
  unfold Buffer_toString_hex. rewrite bind_cons.
  change (Buffer_from_hex
            (hex_digit (b / 16) :: hex_digit (b mod 16)
                       :: Buffer_toString_hex buf) = b :: buf).
  cbn [Buffer_from_hex].
  rewrite !unhex_hex_digit; [| apply N.mod_lt; lia
                             | apply N.Div0.div_lt_upper_bound; lia].
  rewrite IH. f_equal.
  rewrite (N.div_mod b 16) at 3 by lia. done.
Qed.

Lemma length_to_hex (buf : list N) :
  length (Buffer_toString_hex buf) = 2 * length buf.
Proof.
  unfold Buffer_toString_hex.
  induction buf as [|b buf IH]; [done|].
  rewrite bind_cons, length_app, IH. simpl. lia.
Qed.

(** X1.  What [acceptCoin] stores with [part.toString('hex')], two code
    units per octet, is read back by [Buffer.from(_, 'hex')] in
    [determineCheater] as the same octets. *)
Theorem hex_round_trip (buf : list N) :
  Forall (λ b, (b < 256)%N) buf →
  length (Buffer_toString_hex buf) = 2 * length buf ∧
  Buffer_from_hex (Buffer_toString_hex buf) = buf.
Proof.
  intros Hbuf. split; [apply length_to_hex | by apply from_hex_to_hex].
Qed.

Lemma hex_round_trip_witness :
  Buffer_from_hex (Buffer_toString_hex [0; 73; 255]%N) = [0; 73; 255]%N.
Proof.
  apply (hex_round_trip [0; 73; 255]%N).
  repeat constructor.
Defined.

(** The XOR of a round when both entries are hexadecimal forms of buffers
    of one length. *)
Lemma round_xor_hex (l r : list N) :
  Forall (λ b, (b < 256)%N) l → Forall (λ b, (b < 256)%N) r →
  length l = length r →
  round_xor (Buffer_toString_hex l) (Buffer_toString_hex r)
  = zip_with N.lxor l r.
Proof.
  intros Hl Hr Hlen. apply list_eq. intros j.
  rewrite lookup_zip_with.
  destruct (l !! j) as [b1|] eqn:H1; simpl.
  - rewrite (round_xor_lookup _ _ j b1) by (by rewrite from_hex_to_hex).
    rewrite from_hex_to_hex by done. unfold octet_at.
    destruct (lookup_lt_is_Some_2 r j) as [b2 ->];
      [apply lookup_lt_Some in H1; lia | done].
  - apply lookup_ge_None_2. rewrite round_xor_length, from_hex_to_hex by done.
    by apply lookup_ge_None.
Qed.

(** ** Outcomes of [determineCheater] *)

Section ResolutionOutcomes.

Variable IDENT_STR : list N.
Variables ris1 ris2 : list (list N).

(** Each outcome of the loop tells what the rounds were like. *)
Lemma cheater_loop_cases n : ∀ i,
  match cheater_loop IDENT_STR ris1 ris2 i n with
  | Ok (BuyerIdentified id) =>
      ∃ d s1 s2, d < n ∧ ris1 !! (i + d) = Some s1 ∧ ris2 !! (i + d) = Some s2 ∧
                 id = round_xorStr s1 s2 ∧ startsWith id IDENT_STR = true ∧
                 ∀ j, i ≤ j < i + d → marker_at IDENT_STR ris1 ris2 j = false
  | Ok MerchantSuspected =>
      ∀ j, i ≤ j < i + n →
           j < length ris1 ∧ j < length ris2 ∧
           marker_at IDENT_STR ris1 ris2 j = false
  | Throw err =>
      err = TypeError ∧
      ∃ d, d < n ∧ (length ris1 ≤ i + d ∨ length ris2 ≤ i + d) ∧
           ∀ j, i ≤ j < i + d →
                j < length ris1 ∧ j < length ris2 ∧
                marker_at IDENT_STR ris1 ris2 j = false
  end.
Proof.
  induction n as [|n IH]; intros i; simpl; [intros j Hj; lia|].
  destruct (ris1 !! i) as [s1|] eqn:H1.
  2:{ split; [done|]. exists 0. split; [lia|]. split.
      - left. apply lookup_ge_None in H1. lia.
      - intros j Hj. lia. }
  destruct (ris2 !! i) as [s2|] eqn:H2.
  2:{ split; [done|]. exists 0. split; [lia|]. split.
      - right. apply lookup_ge_None in H2. lia.
      - intros j Hj. lia. }
  destruct (startsWith (round_xorStr s1 s2) IDENT_STR) eqn:Hhit.
  { exists 0, s1, s2. rewrite Nat.add_0_r.
    repeat split; [lia | done | done | done |]. intros j Hj. lia. }
  assert (Hi : i < length ris1 ∧ i < length ris2 ∧
               marker_at IDENT_STR ris1 ris2 i = false).
  { split; [by eapply lookup_lt_Some|]. split; [by eapply lookup_lt_Some|].
    unfold marker_at. by rewrite H1, H2. }
  specialize (IH (S i)).
  destruct (cheater_loop IDENT_STR ris1 ris2 (S i) n) as [[id|]|err].
  - destruct IH as (d & t1 & t2 & Hd & Ht1 & Ht2 & Hid & Hs & Hmiss).
    exists (S d), t1, t2. replace (i + S d) with (S i + d) by lia.
    repeat split; [lia | done | done | done | done |].
    intros j Hj. destruct (decide (j = i)) as [->|]; [apply Hi|].
    apply Hmiss. lia.
  - intros j Hj. destruct (decide (j = i)) as [->|]; [apply Hi|].
    apply IH. lia.
  - destruct IH as (-> & d & Hd & Hshort & Hmiss). split; [done|].
    exists (S d). replace (i + S d) with (S i + d) by lia.
    split; [lia|]. split; [done|].
    intros j Hj. destruct (decide (j = i)) as [->|]; [apply Hi|].
    apply Hmiss. lia.
Qed.

(** The loop reads nothing but the entries of its own rounds. *)
Lemma cheater_loop_ext ris1' ris2' n : ∀ i,
  (∀ j, i ≤ j < i + n → ris1 !! j = ris1' !! j ∧ ris2 !! j = ris2' !! j) →
  cheater_loop IDENT_STR ris1 ris2 i n
  = cheater_loop IDENT_STR ris1' ris2' i n.
Proof.
  induction n as [|n IH]; intros i Hsame; simpl; [done|].
  destruct (Hsame i ltac:(lia)) as [<- <-].
  destruct (ris1 !! i); [|done]. destruct (ris2 !! i); [|done].
  destruct (startsWith _ _); [done|].
  apply IH. intros j Hj. apply Hsame. lia.
Qed.

End ResolutionOutcomes.

(** X2.  A buyer verdict is never made up: the reported string is the
    decoded XOR of some round below [COIN_RIS_LENGTH], it starts with the
    marker, and no earlier round revealed the marker. *)
Theorem buyer_verdict_sound COIN_RIS_LENGTH IDENT_STR guid ris1 ris2 id :
  determineCheater COIN_RIS_LENGTH IDENT_STR guid ris1 ris2
  = Ok (BuyerIdentified id) →
  ∃ i s1 s2,
    i < COIN_RIS_LENGTH ∧ ris1 !! i = Some s1 ∧ ris2 !! i = Some s2 ∧
    id = round_xorStr s1 s2 ∧ startsWith id IDENT_STR = true ∧
    ∀ j, j < i → marker_at IDENT_STR ris1 ris2 j = false.
Proof.
  unfold determineCheater. intros H.
  pose proof (cheater_loop_cases IDENT_STR ris1 ris2 COIN_RIS_LENGTH 0) as Hc.
  rewrite H in Hc. destruct Hc as (d & s1 & s2 & Hd & H1 & H2 & Hid & Hs & Hm).
  exists d, s1, s2. repeat split; [done | done | done | done | done |].
  intros j Hj. apply Hm. lia.
Qed.

Lemma buyer_verdict_sound_witness :
  ∃ i s1 s2,
    i < 1 ∧ [js "4944454e542d616c696365"] !! i = Some s1 ∧
    [js "0000000000000000000000"] !! i = Some s2 ∧
    js "IDENT-alice" = round_xorStr s1 s2.
Proof.
  destruct (buyer_verdict_sound 1 (js "IDENT") (js "guid")
              [js "4944454e542d616c696365"] [js "0000000000000000000000"]
              (js "IDENT-alice"))
    as (i & s1 & s2 & Hi & H1 & H2 & Hid & _).
  - vm_compute. reflexivity.
  - exists i, s1, s2. by repeat split.
Defined.

(** X3.  The merchant verdict is answered exactly when both arrays have an
    entry for every round and no round reveals the marker. *)
Theorem merchant_verdict_iff COIN_RIS_LENGTH IDENT_STR guid ris1 ris2 :
  determineCheater COIN_RIS_LENGTH IDENT_STR guid ris1 ris2
  = Ok MerchantSuspected
  ↔ COIN_RIS_LENGTH ≤ length ris1 ∧ COIN_RIS_LENGTH ≤ length ris2 ∧
    ∀ j, j < COIN_RIS_LENGTH → marker_at IDENT_STR ris1 ris2 j = false.
Proof.
  unfold determineCheater.
  pose proof (cheater_loop_cases IDENT_STR ris1 ris2 COIN_RIS_LENGTH 0) as Hc.
  split.
  - intros H. rewrite H in Hc.
    destruct COIN_RIS_LENGTH as [|k].
    { split; [lia|]. split; [lia|]. intros j Hj. lia. }
    destruct (Hc k ltac:(lia)) as (Hk1 & Hk2 & _).
    split; [lia|]. split; [lia|]. intros j Hj. apply Hc. lia.
  - intros (H1 & H2 & Hnone).
    destruct (cheater_loop IDENT_STR ris1 ris2 0 COIN_RIS_LENGTH)
      as [[id|]|err]; [| done |].
    + destruct Hc as (d & s1 & s2 & Hd & Hs1 & Hs2 & -> & Hhit & _).
      specialize (Hnone d Hd). unfold marker_at in Hnone.
      simpl in Hs1, Hs2. rewrite Hs1, Hs2, Hhit in Hnone. done.
    + destruct Hc as (_ & d & Hd & Hshort & _). simpl in Hshort. lia.
Qed.

(** X4.  The only exception of [determineCheater] is the [TypeError] of a
    missing entry, and it is thrown exactly when some round below
    [COIN_RIS_LENGTH] lacks an entry in one of the arrays while no round
    before it revealed the marker. *)
Theorem resolution_throws_iff_entry_missing
        COIN_RIS_LENGTH IDENT_STR guid ris1 ris2 :
  (∀ err, determineCheater COIN_RIS_LENGTH IDENT_STR guid ris1 ris2 = Throw err
          → err = TypeError) ∧
  (determineCheater COIN_RIS_LENGTH IDENT_STR guid ris1 ris2 = Throw TypeError
   ↔ ∃ i, i < COIN_RIS_LENGTH ∧ (length ris1 ≤ i ∨ length ris2 ≤ i) ∧
          ∀ j, j < i → marker_at IDENT_STR ris1 ris2 j = false).
Proof.
  unfold determineCheater.
  pose proof (cheater_loop_cases IDENT_STR ris1 ris2 COIN_RIS_LENGTH 0) as Hc.
  split; [|split].
  - intros err H. rewrite H in Hc. apply Hc.
  - intros H. rewrite H in Hc. destruct Hc as (_ & d & Hd & Hshort & Hm).
    exists d. split; [done|]. split; [done|]. intros j Hj. apply Hm. lia.
  - intros (i & Hi & Hshort & Hnone).
    destruct (cheater_loop IDENT_STR ris1 ris2 0 COIN_RIS_LENGTH)
      as [[id|]|err].
    + destruct Hc as (d & s1 & s2 & Hd & Hs1 & Hs2 & -> & Hhit & _).
      simpl in Hs1, Hs2.
      assert (d < i) as Hlt.
      { apply lookup_lt_Some in Hs1, Hs2. lia. }
      specialize (Hnone d Hlt). unfold marker_at in Hnone.
      rewrite Hs1, Hs2, Hhit in Hnone. done.
    + destruct (Hc i ltac:(lia)) as (? & ? & _). lia.
    + by destruct Hc as (-> & _).
Qed.

(** X5.  Entries after the first [COIN_RIS_LENGTH] ones are never read. *)
Theorem entries_beyond_rounds_ignored COIN_RIS_LENGTH IDENT_STR guid ris1 ris2 :
  determineCheater COIN_RIS_LENGTH IDENT_STR guid
                   (take COIN_RIS_LENGTH ris1) (take COIN_RIS_LENGTH ris2)
  = determineCheater COIN_RIS_LENGTH IDENT_STR guid ris1 ris2.
Proof.
  unfold determineCheater. apply cheater_loop_ext.
  intros j Hj. rewrite !lookup_take_lt by lia. done.
Qed.

Lemma round_xor_comm s1 s2 :
  length (Buffer_from_hex s1) = length (Buffer_from_hex s2) →
  round_xor s1 s2 = round_xor s2 s1.
Proof.
  intros Hlen. apply list_eq. intros j.
  destruct (Buffer_from_hex s1 !! j) as [b1|] eqn:H1.
  - destruct (lookup_lt_is_Some_2 (Buffer_from_hex s2) j) as [b2 H2].
    { apply lookup_lt_Some in H1. lia. }
    rewrite (round_xor_lookup _ _ _ _ H1), (round_xor_lookup _ _ _ _ H2).
    unfold octet_at. rewrite H1, H2. simpl. by rewrite N.lxor_comm.
  - apply lookup_ge_None in H1.
    rewrite !lookup_ge_None_2; [done | |]; rewrite round_xor_length; lia.
Qed.

(** X6.  When the two entries of every round have the same byte length, the
    order of the two share sets does not matter. *)
Theorem resolution_symmetric COIN_RIS_LENGTH IDENT_STR guid ris1 ris2 :
  (∀ i s1 s2, ris1 !! i = Some s1 → ris2 !! i = Some s2 →
              length (Buffer_from_hex s1) = length (Buffer_from_hex s2)) →
  determineCheater COIN_RIS_LENGTH IDENT_STR guid ris1 ris2
  = determineCheater COIN_RIS_LENGTH IDENT_STR guid ris2 ris1.
Proof.
  intros Hlen. unfold determineCheater.
  generalize 0 as i.
  induction COIN_RIS_LENGTH as [|k IH]; intros i; simpl; [done|].
  destruct (ris1 !! i) as [s1|] eqn:H1, (ris2 !! i) as [s2|] eqn:H2;
    try done.
  unfold round_xorStr.
  rewrite (round_xor_comm s1 s2) by (by eapply Hlen).
  destruct (startsWith _ _); [done | apply IH].
Qed.

Lemma resolution_symmetric_witness :
  determineCheater 1 (js "IDENT") (js "guid")
                   [js "6e340b9cffb37a989ca544"] [js "27704ed2ab9e1bf4f5c621"]
  = determineCheater 1 (js "IDENT") (js "guid")
                     [js "27704ed2ab9e1bf4f5c621"] [js "6e340b9cffb37a989ca544"].
Proof.
  apply (resolution_symmetric 1 (js "IDENT") (js "guid")
           [js "6e340b9cffb37a989ca544"] [js "27704ed2ab9e1bf4f5c621"]).
  intros [|i] s1 s2 E1 E2; cbn in E1, E2; simplify_eq.
  vm_compute. reflexivity.
Defined.

(** ** [split] and [parseCoin] *)

Lemma split_cons_inv sep s : ∃ p ps, split sep s = p :: ps.
Proof.
  destruct s as [|c s]; simpl; [by eexists _, _|].
  destruct (c =? sep)%N; [by eexists _, _|].
  destruct (split sep s); by eexists _, _.
Qed.

Lemma split_no_sep sep s : sep ∉ s → split sep s = [s].
Proof.
  induction s as [|c s IH]; intros Hnot; simpl; [done|].
  apply not_elem_of_cons in Hnot as [Hne Hnot].
  destruct (N.eqb_spec c sep) as [->|_]; [done|].
  by rewrite IH.
Qed.

Lemma split_app_sep sep a b :
  split sep (a ++ sep :: b) = split sep a ++ split sep b.
Proof.
  induction a as [|c a IH]; simpl.
  - by rewrite N.eqb_refl.
  - destruct (c =? sep)%N; [by rewrite IH|].
    rewrite IH. by destruct (split_cons_inv sep a) as (p & ps & ->).
Qed.

Lemma split_pieces_no_sep sep s : Forall (λ p, sep ∉ p) (split sep s).
Proof.
  induction s as [|c s IH]; simpl.
  - constructor; [apply not_elem_of_nil | constructor].
  - destruct (N.eqb_spec c sep) as [->|Hne].
    + constructor; [apply not_elem_of_nil | done].
    + destruct (split sep s) as [|p ps]; inversion IH; subst.
      * constructor; [|constructor].
        apply not_elem_of_cons. split; [done | apply not_elem_of_nil].
      * constructor; [|done]. apply not_elem_of_cons. by split.
Qed.

Lemma length_split sep s : length (split sep s) = S (occurrences sep s).
Proof.
  induction s as [|c s IH]; simpl; [done|].
  destruct (c =? sep)%N; simpl; [by rewrite IH|].
  destruct (split sep s); simpl in *; done.
Qed.

Lemma join_split sep s : join sep (split sep s) = s.
Proof.
  induction s as [|c s IH]; [done|]. cbn [split].
  destruct (split_cons_inv sep s) as (p & ps & Hs).
  rewrite Hs in IH |- *.
  destruct (c =? sep)%N eqn:Hc.
  - apply N.eqb_eq in Hc as ->.
    change (sep :: join sep (p :: ps) = sep :: s). by rewrite IH.
  - destruct ps as [|q ps].
    + change (c :: p = c :: s). f_equal. exact IH.
    + change (c :: (p ++ sep :: join sep (q :: ps)) = c :: s).
      f_equal. exact IH.
Qed.

Lemma split_join sep arr :
  arr ≠ [] → Forall (λ p, sep ∉ p) arr → split sep (join sep arr) = arr.
Proof.
  induction arr as [|p arr IH]; intros Hne Hall; [done|].
  inversion Hall as [|? ? Hp Hrest]; subst.
  destruct arr as [|q arr]; simpl.
  - by apply split_no_sep.
  - change (split sep (p ++ sep :: join sep (q :: arr)) = p :: q :: arr).
    rewrite split_app_sep, (split_no_sep sep p) by done.
    simpl. f_equal. by apply IH.
Qed.

(** [split] and [join] are inverse of each other: joining the pieces
    of any string gives the string back, and splitting the join of a
    non-empty array of pieces without separator gives the array back. *)
Theorem split_join_inverse sep :
  (∀ s, join sep (split sep s) = s) ∧
  (∀ arr, arr ≠ [] → Forall (λ p, sep ∉ p) arr →
          split sep (join sep arr) = arr).
Proof. split; [apply join_split | apply split_join]. Qed.

Lemma parseCoin_malformed_iff BANK_STR s :
  parseCoin BANK_STR s = Throw MalformedCoin
  ↔ split dash s !! 0 ≠ Some BANK_STR.
Proof.
  unfold parseCoin. case_bool_decide as Htag; [|done].
  destruct (split dash s !! 3); [|done].
  destruct (split dash s !! 4); done.
Qed.

(** X7.  The three outcomes of [parseCoin]: [MalformedCoin] exactly when
    the text before the first dash is not [BANK_STR]; otherwise a
    [TypeError] exactly when the string has fewer than four dashes; and
    otherwise the comma-separated pieces of the fourth and fifth fields. *)
Theorem parseCoin_outcomes BANK_STR s :
  let pieces := split dash s in
  (parseCoin BANK_STR s = Throw MalformedCoin ↔ pieces !! 0 ≠ Some BANK_STR) ∧
  (parseCoin BANK_STR s = Throw TypeError
   ↔ pieces !! 0 = Some BANK_STR ∧ occurrences dash s < 4) ∧
  (∀ lh rh, parseCoin BANK_STR s = Ok (lh, rh)
            ↔ pieces !! 0 = Some BANK_STR ∧ 4 ≤ occurrences dash s ∧
              (split comma <$> pieces !! 3) = Some lh ∧
              (split comma <$> pieces !! 4) = Some rh).
Proof.
  intros pieces. pose proof (length_split dash s) as Hlen.
  fold pieces in Hlen. unfold parseCoin. fold pieces.
  case_bool_decide as Htag.
  - destruct (pieces !! 3) as [p3|] eqn:H3.
    + destruct (pieces !! 4) as [p4|] eqn:H4.
      * apply lookup_lt_Some in H4.
        split; [split; [done | by intros []]|].
        split; [split; [done | intros [_ ?]; lia]|].
        intros lh rh. split.
        -- intros [= <- <-]. repeat split; [done | lia].
        -- intros (_ & _ & [= <-] & [= <-]). done.
      * apply lookup_ge_None in H4.
        split; [split; [done | by intros []]|].
        split; [split; [intros _; split; [done | lia] | done]|].
        intros lh rh. split; [done | intros (_ & ? & _); lia].
    + apply lookup_ge_None in H3.
      split; [split; [done | by intros []]|].
      split; [split; [intros _; split; [done | lia] | done]|].
      intros lh rh. split; [done | intros (_ & ? & _); lia].
  - split; [split; [done | done]|].
    split; [split; [done | by intros [? _]]|].
    intros lh rh. split; [done | by intros [? _]].
Qed.

Lemma parseCoin_of_join BANK_STR amt guid (lh rh : list (list N)) :
  dash ∉ BANK_STR → dash ∉ amt → dash ∉ guid →
  Forall (λ h, (dash ∉ h) ∧ (comma ∉ h)) lh →
  Forall (λ h, (dash ∉ h) ∧ (comma ∉ h)) rh →
  lh ≠ [] → rh ≠ [] →
  parseCoin BANK_STR
            (join dash [BANK_STR; amt; guid; join comma lh; join comma rh])
  = Ok (lh, rh).
Proof.
  intros Hb Ha Hg Hl Hr Hlne Hrne.
  assert (Hjoin : ∀ arr, Forall (λ h, (dash ∉ h) ∧ (comma ∉ h)) arr →
                         dash ∉ join comma arr).
  { induction arr as [|p arr IH]; intros Hall; [apply not_elem_of_nil|].
    inversion Hall as [|? ? [Hp _] Hrest]; subst.
    destruct arr as [|q arr]; [done|].
    change (dash ∉ p ++ comma :: join comma (q :: arr)).
    rewrite not_elem_of_app, not_elem_of_cons.
    split; [done|]. split; [done | by apply IH]. }
  unfold parseCoin.
  rewrite (split_join dash); [| done |].
  2:{ repeat constructor; [done | done | done | by apply Hjoin | by apply Hjoin]. }
  rewrite bool_decide_eq_true_2 by done. cbn [lookup list_lookup].
  rewrite !(split_join comma);
    [done | done | | done |]; eapply Forall_impl; eauto; by intros ? [_ ?].
Qed.

(** X8.  [parseCoin] reads back the two hash arrays of a commitment string
    in the expected format, provided that no field contains a dash, no
    hash contains a comma and both arrays are non-empty. *)
Theorem parseCoin_round_trip BANK_STR amt guid (lh rh : list (list N)) :
  dash ∉ BANK_STR → dash ∉ amt → dash ∉ guid →
  Forall (λ h, (dash ∉ h) ∧ (comma ∉ h)) lh →
  Forall (λ h, (dash ∉ h) ∧ (comma ∉ h)) rh →
  lh ≠ [] → rh ≠ [] →
  parseCoin BANK_STR
            (join dash [BANK_STR; amt; guid; join comma lh; join comma rh])
  = Ok (lh, rh).
Proof. apply parseCoin_of_join. Qed.

Lemma parseCoin_round_trip_witness :
  parseCoin (js "BANK") (js "BANK-20-guid-01,02-03,04")
  = Ok ([js "01"; js "02"], [js "03"; js "04"]).
Proof.
  apply (parseCoin_round_trip (js "BANK") (js "20") (js "guid")
                              [js "01"; js "02"] [js "03"; js "04"]);
    compute_done.
Defined.

(** X9.  A [BANK_STR] that contains a dash can never be matched: every
    string is rejected as malformed. *)
Theorem dashed_bank_tag_rejects_all BANK_STR s :
  dash ∈ BANK_STR → parseCoin BANK_STR s = Throw MalformedCoin.
Proof.
  intros Hin. unfold parseCoin.
  rewrite bool_decide_eq_false_2; [done|].
  intros Htag. pose proof (split_pieces_no_sep dash s) as Hall.
  rewrite Forall_lookup in Hall. by apply (Hall 0 BANK_STR Htag).
Qed.

Lemma dashed_bank_tag_rejects_all_witness :
  parseCoin (js "E-BANK") (js "E-BANK-20-guid-01,02-03,04")
  = Throw MalformedCoin.
Proof.
  apply (dashed_bank_tag_rejects_all (js "E-BANK")).
  vm_compute. apply list_elem_of_further, list_elem_of_here.
Defined.

(** X10.  Whatever follows a fifth dash is not looked at. *)
Theorem parseCoin_ignores_sixth_field BANK_STR s extra :
  4 ≤ occurrences dash s →
  parseCoin BANK_STR (s ++ dash :: extra) = parseCoin BANK_STR s.
Proof.
  intros Hdashes. pose proof (length_split dash s) as Hlen.
  unfold parseCoin. rewrite split_app_sep.
  rewrite !lookup_app_l by lia. done.
Qed.

Lemma parseCoin_ignores_sixth_field_witness :
  parseCoin (js "BANK") (js "BANK-20-guid-01,02-03,04" ++ dash :: js "more")
  = parseCoin (js "BANK") (js "BANK-20-guid-01,02-03,04").
Proof.
  apply (parseCoin_ignores_sixth_field (js "BANK")
           (js "BANK-20-guid-01,02-03,04") (js "more")).
  vm_compute. lia.
Defined.

(** ** More on [acceptCoin] *)

Section AcceptanceOutcomes.

Context {Rng : Type}.
Variable randInt : N → Rng → N * Rng.
Variable hash : list N → list N.
Variable verify : option N → list N → list N → list N → bool.
Variable BANK_STR : list N.
Variable COIN_RIS_LENGTH : nat.

(** Past the signature check and the parsing, the outcome is that of the
    gathering loop. *)
Lemma acceptCoin_gathered (w : World Rng) lh rh :
  verify (Coin.signature (the_coin w)) (Coin.n (the_coin w))
         (Coin.e (the_coin w)) (Coin.toString (the_coin w)) = true →
  parseCoin BANK_STR (Coin.toString (the_coin w)) = Ok (lh, rh) →
  acceptCoin randInt hash verify BANK_STR COIN_RIS_LENGTH w
  = gather randInt hash lh rh 0 COIN_RIS_LENGTH [] w.
Proof.
  intros Hvalid Hparse. rewrite acceptCoin_unfold. cbn zeta.
  by rewrite Hvalid, Hparse.
Qed.

(** The exceptions of the loop and the number of draws it made. *)
Lemma gather_draws lh rh k : ∀ i ris (w : World Rng),
  match gather randInt hash lh rh i k ris w with
  | (Ok _, w') => the_rng w' = advance randInt (the_rng w) k
  | (Throw (ShareCommitmentMismatch j), w') =>
      i ≤ j < i + k ∧ the_rng w' = advance randInt (the_rng w) (S (j - i))
  | (Throw TypeError, _) => True
  | (Throw _, _) => False
  end.
Proof.
  induction k as [|k IH]; intros i ris w; [done|].
  cbn [gather advance]. unfold bind, draw, coin, throw.
  destruct (randInt 2%N (the_rng w)) as [v g]. cbn.
  destruct (Coin.getRis (the_coin w) (v =? 0)%N i) as [part|]; [|done].
  case_bool_decide.
  - specialize (IH (S i) (ris ++ [Buffer_toString_hex part])
                   (mkWorld (the_coin w) g)).
    destruct (gather _ _ _ _ _ _ _ _) as [[out|[| |j|]] w']; try done.
    cbn in IH. destruct IH as [Hj ->]. split; [lia|].
    replace (j - i) with (S (j - S i)) by lia. done.
  - cbn. split; [lia|]. by rewrite Nat.sub_diag.
Qed.

End AcceptanceOutcomes.

(** X11.  [acceptCoin] throws [MalformedCoin] exactly when the signature
    verifies and the text before the first dash of the commitment string
    is not [BANK_STR]. *)
Theorem malformed_iff_valid_signature_and_wrong_tag {Rng}
        (randInt : N → Rng → N * Rng) (hash : list N → list N)
        (verify : option N → list N → list N → list N → bool)
        BANK_STR COIN_RIS_LENGTH (w : World Rng) :
  let c := the_coin w in
  (acceptCoin randInt hash verify BANK_STR COIN_RIS_LENGTH w).1
  = Throw MalformedCoin
  ↔ verify (Coin.signature c) (Coin.n c) (Coin.e c) (Coin.toString c) = true ∧
    split dash (Coin.toString c) !! 0 ≠ Some BANK_STR.
Proof.
  intros c. rewrite acceptCoin_unfold. cbn zeta. fold c.
  destruct (verify _ _ _ _); [|cbn; split; [done | by intros []]].
  pose proof (parseCoin_malformed_iff BANK_STR (Coin.toString c)) as Hmal.
  destruct (parseCoin BANK_STR (Coin.toString c)) as [[lh rh]|err] eqn:Hparse.
  - pose proof (gather_draws randInt hash lh rh COIN_RIS_LENGTH 0 [] w) as Hg.
    destruct (gather _ _ _ _ _ _ _ _) as [[out|[| |j|]] w']; cbn;
      try done; (split; [done|]); intros [_ Htag]; by apply Hmal in Htag.
  - cbn. split.
    + intros [= ->]. split; [done | by apply Hmal].
    + intros [_ Htag]. apply Hmal in Htag. congruence.
Qed.

(** X12.  [acceptCoin] draws once per round it runs: after an accepted
    coin the generator has advanced by [COIN_RIS_LENGTH] draws, and after a
    hash mismatch reported for round [i], which is below
    [COIN_RIS_LENGTH], by [i + 1] draws. *)
Theorem one_draw_per_round {Rng}
        (randInt : N → Rng → N * Rng) (hash : list N → list N)
        (verify : option N → list N → list N → list N → bool)
        BANK_STR COIN_RIS_LENGTH (w : World Rng) :
  let run := acceptCoin randInt hash verify BANK_STR COIN_RIS_LENGTH w in
  (∀ ris, run.1 = Ok ris →
          the_rng run.2 = advance randInt (the_rng w) COIN_RIS_LENGTH) ∧
  (∀ i, run.1 = Throw (ShareCommitmentMismatch i) →
        i < COIN_RIS_LENGTH ∧
        the_rng run.2 = advance randInt (the_rng w) (S i)).
Proof.
  cbn zeta. rewrite acceptCoin_unfold. cbn zeta.
  destruct (verify _ _ _ _); [|by split].
  destruct (parseCoin BANK_STR _) as [[lh rh]|err] eqn:Hparse.
  - pose proof (gather_draws randInt hash lh rh COIN_RIS_LENGTH 0 [] w) as Hg.
    destruct (gather _ _ _ _ _ _ _ _) as [[out|err] w']; cbn in *.
    + split; [intros ris _; exact Hg | intros i H; discriminate].
    + split; [intros ris H; discriminate|].
      intros i [= ->]. destruct Hg as [Hj ->]. split; [lia|].
      by rewrite Nat.sub_0_r.
  - split; [done|]. cbn. intros i [= ->].
    unfold parseCoin in Hparse. case_bool_decide; [|done].
    destruct (split dash _ !! 3); [|done].
    destruct (split dash _ !! 4); done.
Qed.

(** X13.  A commitment string that carries fewer than [COIN_RIS_LENGTH]
    hashes on both sides is never accepted. *)
Theorem short_commitment_never_accepted {Rng}
        (randInt : N → Rng → N * Rng) (hash : list N → list N)
        (verify : option N → list N → list N → list N → bool)
        BANK_STR COIN_RIS_LENGTH (w : World Rng) lh rh :
  parseCoin BANK_STR (Coin.toString (the_coin w)) = Ok (lh, rh) →
  length lh < COIN_RIS_LENGTH → length rh < COIN_RIS_LENGTH →
  ∀ ris, (acceptCoin randInt hash verify BANK_STR COIN_RIS_LENGTH w).1
         ≠ Ok ris.
Proof.
  intros Hparse Hl Hr ris. rewrite acceptCoin_unfold. cbn zeta.
  destruct (verify _ _ _ _); [|done]. rewrite Hparse.
  rewrite (proj2 (gather_run _ randInt hash lh rh _ _ _ _)).
  intros Hok.
  set (j := length lh `max` length rh).
  destruct (lookup_lt_is_Some_2
              (sides randInt (the_rng w) COIN_RIS_LENGTH) j) as [side Hside].
  { rewrite length_sides. lia. }
  pose proof (gathered_ok_all_match hash lh rh _ _ 0 [] ris Hok j side Hside)
    as Hm.
  unfold share_matches in Hm. simpl in Hm.
  destruct (Coin.getRis _ side j); [|done].
  apply bool_decide_eq_true_1 in Hm. unfold committed in Hm.
  destruct side; symmetry in Hm; apply lookup_lt_Some in Hm; lia.
Qed.

Lemma short_commitment_never_accepted_witness :
  ∃ err,
    (acceptCoin fake_randInt fake_hash fake_verify (js "BANK") 3
                (mkWorld (fake_coin (js "BANK-20-guid-01,02-03,04") (Some 24%N))
                         2%N)).1 = Throw err.
Proof.
  destruct (acceptCoin fake_randInt fake_hash fake_verify (js "BANK") 3
              (mkWorld (fake_coin (js "BANK-20-guid-01,02-03,04") (Some 24%N))
                       2%N)).1 as [ris|err] eqn:Hrun; [|by exists err].
  exfalso. revert Hrun.
  apply (short_commitment_never_accepted
           fake_randInt fake_hash fake_verify (js "BANK") 3
           (mkWorld (fake_coin (js "BANK-20-guid-01,02-03,04") (Some 24%N)) 2%N)
           [js "01"; js "02"] [js "03"; js "04"]).
  - vm_compute. reflexivity.
  - simpl. lia.
  - simpl. lia.
Defined.

(** ** Spending a coin twice *)

Lemma replayed_round_hides_marker IDENT_STR s :
  (∃ c, c ∈ IDENT_STR ∧ c ≠ 0%N) →
  startsWith (round_xorStr s s) IDENT_STR = false.
Proof.
  intros Hmark. unfold round_xorStr.
  rewrite round_xor_self, Buffer_toString_zeros.
  by apply startsWith_zeros.
Qed.

Lemma cheater_loop_self IDENT_STR (ris : list (list N)) n : ∀ i,
  (∃ c, c ∈ IDENT_STR ∧ c ≠ 0%N) →
  i + n ≤ length ris →
  cheater_loop IDENT_STR ris ris i n = Ok MerchantSuspected.
Proof.
  induction n as [|n IH]; intros i Hmark Hi; simpl; [done|].
  destruct (lookup_lt_is_Some_2 ris i) as [s Hs]; [lia|].
  rewrite Hs, replayed_round_hides_marker by done. apply IH; [done | lia].
Qed.

Lemma zip_with_lxor_comm (l r : list N) :
  zip_with N.lxor l r = zip_with N.lxor r l.
Proof.
  revert r. induction l as [|a l IH]; intros [|b r]; simpl; [done..|].
  by rewrite N.lxor_comm, IH.
Qed.

(** Two lists of one length that differ have a first position where they
    differ. *)
Lemma first_difference (l1 : list bool) : ∀ l2,
  length l1 = length l2 → l1 ≠ l2 →
  ∃ i a b, l1 !! i = Some a ∧ l2 !! i = Some b ∧ a ≠ b ∧
           ∀ j, j < i → l1 !! j = l2 !! j.
Proof.
  induction l1 as [|a l1 IH]; intros [|b l2] Hlen Hne; simplify_eq/=.
  destruct (decide (a = b)) as [->|Hab].
  - destruct (IH l2) as (i & x & y & H1 & H2 & Hxy & Hsame);
      [done | congruence |].
    exists (S i), x, y. repeat split; [done | done | done |].
    intros [|j] Hj; [done|]. simpl. apply Hsame. lia.
  - exists 0, a, b. repeat split; [done|]. intros j Hj. lia.
Qed.

Section SpendingFacts.

Context {Rng : Type}.
Variable randInt : N → Rng → N * Rng.
Variable hash : list N → list N.
Variable verify : option N → list N → list N → list N → bool.
Variable BANK_STR : list N.
Variable COIN_RIS_LENGTH : nat.

(** A coin whose shares hash to the committed hashes is accepted whatever
    the draws; the array holds the hexadecimal form of the drawn shares and
    the world keeps its coin while the generator advances. *)
Lemma accept_committed (w : World Rng) lh rh :
  verify (Coin.signature (the_coin w)) (Coin.n (the_coin w))
         (Coin.e (the_coin w)) (Coin.toString (the_coin w)) = true →
  parseCoin BANK_STR (Coin.toString (the_coin w)) = Ok (lh, rh) →
  (∀ i, i < COIN_RIS_LENGTH →
        ∃ l r, Coin.leftIdent (the_coin w) !! i = Some l ∧
               Coin.rightIdent (the_coin w) !! i = Some r ∧
               lh !! i = Some (hash l) ∧ rh !! i = Some (hash r)) →
  ∃ ris,
    acceptCoin randInt hash verify BANK_STR COIN_RIS_LENGTH w
    = (Ok ris, mkWorld (the_coin w)
                       (advance randInt (the_rng w) COIN_RIS_LENGTH)) ∧
    length ris = COIN_RIS_LENGTH ∧
    ∀ i side part,
      sides randInt (the_rng w) COIN_RIS_LENGTH !! i = Some side →
      Coin.getRis (the_coin w) side i = Some part →
      ris !! i = Some (Buffer_toString_hex part).
Proof.
  intros Hvalid Hparse Hshares.
  rewrite (acceptCoin_gathered _ _ _ _ _ _ lh rh) by done.
  destruct (gathered_all_match hash lh rh (the_coin w)
              (sides randInt (the_rng w) COIN_RIS_LENGTH) 0 [])
    as (out & Hout & Hlen & Hlook).
  { intros j side Hj. pose proof (lookup_lt_Some _ _ _ Hj) as Hlt.
    rewrite length_sides in Hlt.
    destruct (Hshares j Hlt) as (l & r & Hl & Hr & Hlh & Hrh).
    unfold share_matches, Coin.getRis, committed. simpl.
    destruct side.
    - rewrite Hl, Hlh. by apply bool_decide_eq_true_2.
    - rewrite Hr, Hrh. by apply bool_decide_eq_true_2. }
  pose proof (gather_run _ randInt hash lh rh COIN_RIS_LENGTH 0 [] w)
    as [Hcoin Hres].
  pose proof (gather_draws randInt hash lh rh COIN_RIS_LENGTH 0 [] w) as Hrng.
  destruct (gather randInt hash lh rh 0 COIN_RIS_LENGTH [] w) as [res w'].
  simpl in Hcoin, Hres. rewrite Hres, Hout in Hrng. subst res.
  rewrite Hout. destruct w' as [c' g']. simpl in Hcoin, Hrng. subst c' g'.
  exists out. split; [done|]. split.
  - rewrite Hlen, length_sides. done.
  - intros i side part Hi Hp. by apply (Hlook i side part).
Qed.

End SpendingFacts.

(** X14.  A coin built the honest way is accepted whatever the generator
    draws: when the signature verifies, the commitment string is the join
    of [BANK_STR], an amount, an id and the hashes of [COIN_RIS_LENGTH]
    left and right shares, and no field or hash contains a separator,
    [acceptCoin] returns one entry per round, the hexadecimal form of the
    share of the side drawn. *)
Theorem honest_coin_accepted {Rng}
        (randInt : N → Rng → N * Rng) (hash : list N → list N)
        (verify : option N → list N → list N → list N → bool)
        BANK_STR COIN_RIS_LENGTH (w : World Rng) amt guid :
  let c := the_coin w in
  verify (Coin.signature c) (Coin.n c) (Coin.e c) (Coin.toString c) = true →
  Coin.toString c
  = join dash [BANK_STR; amt; guid;
               join comma (hash <$> Coin.leftIdent c);
               join comma (hash <$> Coin.rightIdent c)] →
  dash ∉ BANK_STR → dash ∉ amt → dash ∉ guid →
  (∀ part, (dash ∉ hash part) ∧ (comma ∉ hash part)) →
  0 < COIN_RIS_LENGTH →
  length (Coin.leftIdent c) = COIN_RIS_LENGTH →
  length (Coin.rightIdent c) = COIN_RIS_LENGTH →
  ∃ ris,
    (acceptCoin randInt hash verify BANK_STR COIN_RIS_LENGTH w).1 = Ok ris ∧
    length ris = COIN_RIS_LENGTH ∧
    ∀ i side part,
      sides randInt (the_rng w) COIN_RIS_LENGTH !! i = Some side →
      Coin.getRis c side i = Some part →
      ris !! i = Some (Buffer_toString_hex part).
Proof.
  intros c Hvalid Hstr Hb Ha Hg Hhash Hk Hl Hr.
  assert (Hparse : parseCoin BANK_STR (Coin.toString c)
                   = Ok (hash <$> Coin.leftIdent c, hash <$> Coin.rightIdent c)).
  { rewrite Hstr. apply parseCoin_of_join; try done.
    - apply Forall_fmap, Forall_forall. intros part _. apply Hhash.
    - apply Forall_fmap, Forall_forall. intros part _. apply Hhash.
    - destruct (Coin.leftIdent c); simpl in *; [lia | done].
    - destruct (Coin.rightIdent c); simpl in *; [lia | done]. }
  destruct (accept_committed randInt hash verify BANK_STR COIN_RIS_LENGTH w
              _ _ Hvalid Hparse) as (ris & Hacc & Hlen & Hlook).
  { intros i Hi. fold c.
    destruct (lookup_lt_is_Some_2 (Coin.leftIdent c) i) as [l Hli]; [lia|].
    destruct (lookup_lt_is_Some_2 (Coin.rightIdent c) i) as [r Hri]; [lia|].
    exists l, r. rewrite !list_lookup_fmap, Hli, Hri. done. }
  exists ris. rewrite Hacc. done.
Qed.

Lemma honest_coin_accepted_witness :
  ∃ ris,
    (acceptCoin fake_randInt fake_hash fake_verify (js "BANK") 2
                (mkWorld alice_coin 14%N)).1 = Ok ris ∧
    length ris = 2.
Proof.
  destruct (honest_coin_accepted fake_randInt fake_hash fake_verify (js "BANK")
              2 (mkWorld alice_coin 14%N) (js "20") (js "guid"))
    as (ris & Hacc & Hlen & _).
  - vm_compute. reflexivity.
  - vm_compute. reflexivity.
  - compute_done.
  - compute_done.
  - compute_done.
  - intros part. unfold fake_hash, Buffer_toString_hex.
    assert (∀ d, hex_digit d ≠ dash ∧ hex_digit d ≠ comma) as Hd.
    { intros d. unfold hex_digit, dash, comma. destruct (d <? 10)%N; lia. }
    induction part as [|b part [IH1 IH2]];
      [split; apply not_elem_of_nil|].
    rewrite bind_cons. simpl.
    destruct (Hd (b / 16)%N) as [? ?], (Hd (b mod 16)%N) as [? ?].
    rewrite !not_elem_of_cons. by repeat split.
  - lia.
  - reflexivity.
  - reflexivity.
  - exists ris. by split.
Defined.

Section DoubleSpending.

Context {Rng : Type}.
Variable randInt : N → Rng → N * Rng.
Variable hash : list N → list N.
Variable verify : option N → list N → list N → list N → bool.
Variable BANK_STR : list N.
Variable COIN_RIS_LENGTH : nat.
Variable IDENT_STR : list N.

Variable w : World Rng.
Variables lh rh : list (list N).

Hypothesis Hvalid :
  verify (Coin.signature (the_coin w)) (Coin.n (the_coin w))
         (Coin.e (the_coin w)) (Coin.toString (the_coin w)) = true.
Hypothesis Hparse :
  parseCoin BANK_STR (Coin.toString (the_coin w)) = Ok (lh, rh).
Hypothesis Hident :
  identity_committed hash IDENT_STR COIN_RIS_LENGTH (the_coin w) lh rh.
Hypothesis Hmark : ∃ ch, ch ∈ IDENT_STR ∧ ch ≠ 0%N.

(** What the two acceptances of the demo return, and the world between
    them. *)
Lemma two_acceptances :
  let g1 := advance randInt (the_rng w) COIN_RIS_LENGTH in
  let w1 := mkWorld (the_coin w) g1 in
  let w2 := mkWorld (the_coin w) (advance randInt g1 COIN_RIS_LENGTH) in
  ∃ ris1 ris2,
    acceptCoin randInt hash verify BANK_STR COIN_RIS_LENGTH w = (Ok ris1, w1) ∧
    acceptCoin randInt hash verify BANK_STR COIN_RIS_LENGTH w1 = (Ok ris2, w2) ∧
    length ris1 = COIN_RIS_LENGTH ∧ length ris2 = COIN_RIS_LENGTH ∧
    (∀ i side part,
        sides randInt (the_rng w) COIN_RIS_LENGTH !! i = Some side →
        Coin.getRis (the_coin w) side i = Some part →
        ris1 !! i = Some (Buffer_toString_hex part)) ∧
    (∀ i side part,
        sides randInt g1 COIN_RIS_LENGTH !! i = Some side →
        Coin.getRis (the_coin w) side i = Some part →
        ris2 !! i = Some (Buffer_toString_hex part)).
Proof using Hvalid Hparse Hident.
  intros g1 w1 w2.
  assert (Hshares : ∀ i, i < COIN_RIS_LENGTH →
            ∃ l r, Coin.leftIdent (the_coin w) !! i = Some l ∧
                   Coin.rightIdent (the_coin w) !! i = Some r ∧
                   lh !! i = Some (hash l) ∧ rh !! i = Some (hash r)).
  { intros i Hi. destruct (Hident i Hi) as (l & r & ? & ? & ? & ? & _).
    by exists l, r. }
  destruct (accept_committed randInt hash verify BANK_STR COIN_RIS_LENGTH w
              lh rh Hvalid Hparse Hshares) as (ris1 & Hacc1 & Hlen1 & Hlook1).
  destruct (accept_committed randInt hash verify BANK_STR COIN_RIS_LENGTH w1
              lh rh Hvalid Hparse Hshares) as (ris2 & Hacc2 & Hlen2 & Hlook2).
  exists ris1, ris2. by repeat split.
Qed.

(** Rounds in which both merchants drew the same side reveal nothing. *)
Lemma same_side_round_hides_marker (sd1 sd2 : list bool) ris1 ris2 j :
  length sd1 = COIN_RIS_LENGTH →
  (∀ i side part, sd1 !! i = Some side →
                  Coin.getRis (the_coin w) side i = Some part →
                  ris1 !! i = Some (Buffer_toString_hex part)) →
  (∀ i side part, sd2 !! i = Some side →
                  Coin.getRis (the_coin w) side i = Some part →
                  ris2 !! i = Some (Buffer_toString_hex part)) →
  j < COIN_RIS_LENGTH → sd1 !! j = sd2 !! j →
  marker_at IDENT_STR ris1 ris2 j = false.
Proof using Hident Hmark.
  intros Hlen Hlook1 Hlook2 Hj Hsame.
  destruct (lookup_lt_is_Some_2 sd1 j) as [side Hside]; [lia|].
  destruct (Hident j Hj) as (l & r & Hl & Hr & _).
  assert (∃ part, Coin.getRis (the_coin w) side j = Some part) as [part Hp].
  { unfold Coin.getRis. destruct side; eauto. }
  unfold marker_at.
  rewrite (Hlook1 j side part), (Hlook2 j side part) by congruence.
  by apply replayed_round_hides_marker.
Qed.

End DoubleSpending.

(** X15.  Double spending by the buyer is detected.  Take a coin whose
    signature verifies, whose commitment string parses to hashes that its
    shares match, and whose two shares of every round have one length and
    XOR to octets that decode to a string starting with the marker (which
    has a character other than NUL).  If the two acceptances of the demo
    script do not draw the same sides, the script reports the buyer with
    the decoded XOR of the shares of the first round in which the sides
    differ, and then reports the merchant for the replayed share set. *)
Theorem double_spend_identifies_buyer {Rng}
        (randInt : N → Rng → N * Rng) (hash : list N → list N)
        (verify : option N → list N → list N → list N → bool)
        BANK_STR COIN_RIS_LENGTH IDENT_STR (w : World Rng) lh rh :
  let c := the_coin w in
  let sd1 := sides randInt (the_rng w) COIN_RIS_LENGTH in
  let sd2 := sides randInt (advance randInt (the_rng w) COIN_RIS_LENGTH)
                   COIN_RIS_LENGTH in
  verify (Coin.signature c) (Coin.n c) (Coin.e c) (Coin.toString c) = true →
  parseCoin BANK_STR (Coin.toString c) = Ok (lh, rh) →
  identity_committed hash IDENT_STR COIN_RIS_LENGTH c lh rh →
  (∃ ch, ch ∈ IDENT_STR ∧ ch ≠ 0%N) →
  sd1 ≠ sd2 →
  ∃ i l r,
    i < COIN_RIS_LENGTH ∧ sd1 !! i ≠ sd2 !! i ∧
    (∀ j, j < i → sd1 !! j = sd2 !! j) ∧
    Coin.leftIdent c !! i = Some l ∧ Coin.rightIdent c !! i = Some r ∧
    (spend_twice_and_resolve randInt hash verify BANK_STR COIN_RIS_LENGTH
                             IDENT_STR w).1
    = Ok (BuyerIdentified (Buffer_toString (zip_with N.lxor l r)),
          MerchantSuspected).
Proof.
  intros c sd1 sd2 Hvalid Hparse Hident Hmark Hdiff.
  destruct (two_acceptances randInt hash verify BANK_STR COIN_RIS_LENGTH
              IDENT_STR w lh rh Hvalid Hparse Hident)
    as (ris1 & ris2 & Hacc1 & Hacc2 & Hlen1 & Hlen2 & Hlook1 & Hlook2).
  fold sd1 in Hlook1. fold sd2 in Hlook2. fold c in Hlook1, Hlook2.
  destruct (first_difference sd1 sd2) as (i & a & b & Ha & Hb & Hab & Hsame);
    [unfold sd1, sd2; by rewrite !length_sides | done |].
  assert (i < COIN_RIS_LENGTH) as Hi.
  { apply lookup_lt_Some in Ha. unfold sd1 in Ha.
    by rewrite length_sides in Ha. }
  destruct (Hident i Hi)
    as (l & r & Hl & Hr & _ & _ & Hol & Hor & Hlr & Hstart).
  exists i, l, r.
  split; [done|]. split; [congruence|]. split; [done|].
  split; [done|]. split; [done|].
  assert (Hfirst : ∀ guid,
             determineCheater COIN_RIS_LENGTH IDENT_STR guid ris1 ris2
             = Ok (BuyerIdentified (Buffer_toString (zip_with N.lxor l r)))).
  { intros guid. unfold determineCheater.
    assert (∃ s1 s2, ris1 !! i = Some s1 ∧ ris2 !! i = Some s2 ∧
                     round_xorStr s1 s2
                     = Buffer_toString (zip_with N.lxor l r))
      as (s1 & s2 & H1 & H2 & Hxor).
    { unfold round_xorStr. destruct a, b; try done.
      - exists (Buffer_toString_hex l), (Buffer_toString_hex r).
        split; [by apply (Hlook1 i true)|].
        split; [by apply (Hlook2 i false)|].
        by rewrite round_xor_hex.
      - exists (Buffer_toString_hex r), (Buffer_toString_hex l).
        split; [by apply (Hlook1 i false)|].
        split; [by apply (Hlook2 i true)|].
        by rewrite round_xor_hex, zip_with_lxor_comm. }
    rewrite <- Hxor.
    apply (cheater_loop_hit IDENT_STR ris1 ris2 i); [lia | done | done | |].
    - by rewrite Hxor.
    - intros j Hj.
      apply (same_side_round_hides_marker hash COIN_RIS_LENGTH IDENT_STR
               w lh rh Hident Hmark sd1 sd2);
        [apply length_sides | done | done | lia | apply Hsame; lia]. }
  assert (Hsecond : ∀ guid,
             determineCheater COIN_RIS_LENGTH IDENT_STR guid ris1 ris1
             = Ok MerchantSuspected).
  { intros guid. unfold determineCheater.
    apply cheater_loop_self; [done | lia]. }
  unfold spend_twice_and_resolve, bind, lift, coin, ret.
  rewrite Hacc1, Hacc2, Hfirst, Hsecond. done.
Qed.

(** X16.  For the same coin, when the two acceptances draw the same sides
    in every round, both resolutions of the demo script report the
    merchant: the buyer is not identified. *)
Theorem same_draws_suspect_merchant {Rng}
        (randInt : N → Rng → N * Rng) (hash : list N → list N)
        (verify : option N → list N → list N → list N → bool)
        BANK_STR COIN_RIS_LENGTH IDENT_STR (w : World Rng) lh rh :
  let c := the_coin w in
  let sd1 := sides randInt (the_rng w) COIN_RIS_LENGTH in
  let sd2 := sides randInt (advance randInt (the_rng w) COIN_RIS_LENGTH)
                   COIN_RIS_LENGTH in
  verify (Coin.signature c) (Coin.n c) (Coin.e c) (Coin.toString c) = true →
  parseCoin BANK_STR (Coin.toString c) = Ok (lh, rh) →
  identity_committed hash IDENT_STR COIN_RIS_LENGTH c lh rh →
  (∃ ch, ch ∈ IDENT_STR ∧ ch ≠ 0%N) →
  sd1 = sd2 →
  (spend_twice_and_resolve randInt hash verify BANK_STR COIN_RIS_LENGTH
                           IDENT_STR w).1
  = Ok (MerchantSuspected, MerchantSuspected).
Proof.
  intros c sd1 sd2 Hvalid Hparse Hident Hmark Hsame.
  destruct (two_acceptances randInt hash verify BANK_STR COIN_RIS_LENGTH
              IDENT_STR w lh rh Hvalid Hparse Hident)
    as (ris1 & ris2 & Hacc1 & Hacc2 & Hlen1 & Hlen2 & Hlook1 & Hlook2).
  fold sd1 in Hlook1. fold sd2 in Hlook2. fold c in Hlook1, Hlook2.
  assert (Hfirst : ∀ guid,
             determineCheater COIN_RIS_LENGTH IDENT_STR guid ris1 ris2
             = Ok MerchantSuspected).
  { intros guid.
    pose proof (cheater_loop_cases IDENT_STR ris1 ris2 COIN_RIS_LENGTH 0) as Hc.
    assert (Hnone : ∀ j, j < COIN_RIS_LENGTH →
                         marker_at IDENT_STR ris1 ris2 j = false).
    { intros j Hj.
      apply (same_side_round_hides_marker hash COIN_RIS_LENGTH IDENT_STR
               w lh rh Hident Hmark sd1 sd2);
        [apply length_sides | done | done | lia | by rewrite Hsame]. }
    unfold determineCheater.
    destruct (cheater_loop IDENT_STR ris1 ris2 0 COIN_RIS_LENGTH)
      as [[id|]|err]; [| done |].
    - destruct Hc as (d & s1 & s2 & Hd & Hs1 & Hs2 & -> & Hhit & _).
      specialize (Hnone d Hd). unfold marker_at in Hnone.
      simpl in Hs1, Hs2. rewrite Hs1, Hs2, Hhit in Hnone. done.
    - destruct Hc as (_ & d & Hd & Hshort & _). simpl in Hshort. lia. }
  assert (Hsecond : ∀ guid,
             determineCheater COIN_RIS_LENGTH IDENT_STR guid ris1 ris1
             = Ok MerchantSuspected).
  { intros guid. unfold determineCheater.
    apply cheater_loop_self; [done | lia]. }
  unfold spend_twice_and_resolve, bind, lift, coin, ret.
  rewrite Hacc1, Hacc2, Hfirst, Hsecond. done.
Qed.

Lemma alice_coin_commits :
  identity_committed fake_hash (js "IDENT") 2 alice_coin
    [js "6e340b9cffb37a989ca544"; js "4bf5122f344554c53bde2e"]
    [js "27704ed2ab9e1bf4f5c621"; js "02b15761606835a952bd4b"].
Proof.
  intros [|[|i]] Hi; [| |lia].
  - exists (Buffer_from_hex (js "6e340b9cffb37a989ca544")),
           (Buffer_from_hex (js "27704ed2ab9e1bf4f5c621")).
    repeat split; try (vm_compute; reflexivity); apply Buffer_from_hex_octets.
  - exists (Buffer_from_hex (js "4bf5122f344554c53bde2e")),
           (Buffer_from_hex (js "02b15761606835a952bd4b")).
    repeat split; try (vm_compute; reflexivity); apply Buffer_from_hex_octets.
Defined.

Lemma double_spend_identifies_buyer_witness :
  ∃ id,
    (spend_twice_and_resolve fake_randInt fake_hash fake_verify (js "BANK") 2
                             (js "IDENT") (mkWorld alice_coin 14%N)).1
    = Ok (BuyerIdentified id, MerchantSuspected).
Proof.
  destruct (double_spend_identifies_buyer
              fake_randInt fake_hash fake_verify (js "BANK") 2 (js "IDENT")
              (mkWorld alice_coin 14%N)
              [js "6e340b9cffb37a989ca544"; js "4bf5122f344554c53bde2e"]
              [js "27704ed2ab9e1bf4f5c621"; js "02b15761606835a952bd4b"])
    as (i & l & r & _ & _ & _ & _ & _ & Hres).
  - vm_compute. reflexivity.
  - vm_compute. reflexivity.
  - exact alice_coin_commits.
  - exists 73%N. split; [|discriminate]. vm_compute. apply list_elem_of_here.
  - vm_compute. discriminate.
  - eexists. exact Hres.
Defined.

Lemma same_draws_suspect_merchant_witness :
  (spend_twice_and_resolve fake_randInt fake_hash fake_verify (js "BANK") 2
                           (js "IDENT") (mkWorld alice_coin 0%N)).1
  = Ok (MerchantSuspected, MerchantSuspected).
Proof.
  apply (same_draws_suspect_merchant
           fake_randInt fake_hash fake_verify (js "BANK") 2 (js "IDENT")
           (mkWorld alice_coin 0%N)
           [js "6e340b9cffb37a989ca544"; js "4bf5122f344554c53bde2e"]
           [js "27704ed2ab9e1bf4f5c621"; js "02b15761606835a952bd4b"]).
  - vm_compute. reflexivity.
  - vm_compute. reflexivity.
  - exact alice_coin_commits.
  - exists 73%N. split; [|discriminate]. vm_compute. apply list_elem_of_here.
  - vm_compute. reflexivity.
Defined.

Example demo_script_prints_alice :
  (spend_twice_and_resolve fake_randInt fake_hash fake_verify (js "BANK") 2
                           (js "IDENT") (mkWorld alice_coin 14%N)).1
  = Ok (BuyerIdentified (js "IDENT-alice"), MerchantSuspected).
Proof. vm_compute. reflexivity. Qed.

(** ** The marker test on the octets of a round *)

Lemma utf8_lead_ascii c : (c < 128)%N → utf8_lead c = Emit c.
Proof.
  intros Hc. unfold utf8_lead.
  destruct (N.leb_spec c 0x7F); [done | lia].
Qed.

Lemma utf16_units_ascii (a : list N) :
  Forall (λ c, (c < 128)%N) a → a ≫= utf16_units = a.
Proof.
  induction 1 as [|c a Hc _ IH]; [done|].
  rewrite bind_cons, IH. unfold utf16_units.
  destruct (N.ltb_spec c 0x10000); [done | lia].
Qed.

(** ASCII octets at the start of a buffer decode to themselves. *)
Lemma Buffer_toString_ascii_app (a rest : list N) :
  Forall (λ c, (c < 128)%N) a →
  Buffer_toString (a ++ rest) = a ++ Buffer_toString rest.
Proof.
  intros Ha. unfold Buffer_toString.
  assert (utf8_decode None (a ++ rest) = a ++ utf8_decode None rest) as ->.
  { induction Ha as [|c a Hc _ IH]; [done|].
    cbn [app utf8_decode]. rewrite utf8_lead_ascii by done.
    cbv iota. by rewrite IH. }
  by rewrite bind_app, utf16_units_ascii.
Qed.

Lemma startsWith_app (p x : list N) : startsWith (p ++ x) p = true.
Proof.
  induction p as [|c p IH]; [by destruct x|].
  cbn [app startsWith]. by rewrite N.eqb_refl, IH.
Qed.

Lemma startsWith_inv (p s : list N) :
  startsWith s p = true → ∃ x, s = p ++ x.
Proof.
  revert s. induction p as [|c p IH]; intros s H; [by exists s|].
  destruct s as [|d s]; [done|]. cbn [startsWith] in H.
  apply andb_prop in H as [->%N.eqb_eq Hs].
  destruct (IH s Hs) as [x ->]. by exists x.
Qed.

(** A continuation byte adds six low bits. *)
Lemma continuation_value cp x :
  N.lor (N.shiftl cp 6) (N.land x 0x3F) = (cp * 64 + x mod 64)%N.
Proof.
  change 0x3F%N with (N.ones 6). rewrite N.land_ones.
  assert (N.land (N.shiftl cp 6) (x mod 2 ^ 6) = 0%N) as Hdisjoint.
  { apply N.bits_inj_0. intros n. rewrite N.land_spec.
    destruct (decide (n < 6)%N) as [Hn|Hn].
    - by rewrite N.shiftl_spec_low.
    - rewrite (N.mod_pow2_bits_high x 6 n) by lia. apply andb_false_r. }
  rewrite <- N.lxor_lor, <- N.add_nocarry_lxor by exact Hdisjoint.
  by rewrite N.shiftl_mul_pow2.
Qed.

(** Whatever follows, an open multi-byte sequence first yields a code unit
    that is not ASCII. *)
Lemma pending_first_unit bs : ∀ cp r lo hi,
  1 ≤ r → (0x80 ≤ lo)%N → (hi ≤ 0xBF)%N →
  (2 ≤ cp)%N ∨ ((1 ≤ cp)%N ∧ 2 ≤ r) ∨ (2 ≤ r ∧ (0x90 ≤ lo)%N) →
  ∃ u us, utf8_decode (Some (cp, r, lo, hi)) bs ≫= utf16_units = u :: us ∧
          (128 ≤ u)%N.
Proof.
  induction bs as [|x bs IH]; intros cp r lo hi Hr Hlo Hhi Hinv.
  { exists 0xFFFD%N, []. split; [done | lia]. }
  cbn [utf8_decode].
  destruct (N.leb_spec lo x) as [Hlx|Hlx]; cbn [andb].
  2:{ rewrite bind_cons. exists 0xFFFD%N. eexists. split; [done | lia]. }
  destruct (N.leb_spec x hi) as [Hxh|Hxh].
  2:{ rewrite bind_cons. exists 0xFFFD%N. eexists. split; [done | lia]. }
  cbv zeta. rewrite continuation_value.
  pose proof (N.mod_lt x 64 ltac:(lia)) as Hm.
  pose proof (N.div_mod x 64 ltac:(lia)) as Hdm.
  set (m := (x mod 64)%N) in *. set (q := (x / 64)%N) in *.
  destruct r as [|[|r]]; [lia | |].
  - assert (128 ≤ cp * 64 + m)%N as Hcp by lia.
    rewrite bind_cons. unfold utf16_units at 1.
    destruct (N.ltb_spec (cp * 64 + m) 0x10000).
    + eexists _, _. split; [done | lia].
    + eexists _, _. split; [done|].
      transitivity 0xD800%N; [lia | apply N.le_add_r].
  - apply IH; [lia | lia | lia |]. left.
    destruct Hinv as [?|[[? ?]|[? ?]]]; lia.
Qed.

Lemma non_ascii_first_unit b bs :
  (0x7F < b)%N →
  ∃ u us, Buffer_toString (b :: bs) = u :: us ∧ (128 ≤ u)%N.
Proof.
  intros Hb. unfold Buffer_toString. cbn [utf8_decode]. unfold utf8_lead.
  destruct (N.leb_spec b 0x7F); [lia|].
  change 0x1F%N with (N.ones 5). change 0xF%N with (N.ones 4).
  change 0x7%N with (N.ones 3). rewrite !N.land_ones.
  change (2 ^ 5)%N with 32%N. change (2 ^ 4)%N with 16%N.
  change (2 ^ 3)%N with 8%N.
  pose proof (N.mod_lt b 32 ltac:(lia)).
  pose proof (N.div_mod b 32 ltac:(lia)).
  pose proof (N.mod_lt b 16 ltac:(lia)).
  pose proof (N.div_mod b 16 ltac:(lia)).
  pose proof (N.mod_lt b 8 ltac:(lia)).
  pose proof (N.div_mod b 8 ltac:(lia)).
  set (m32 := (b mod 32)%N) in *. set (q32 := (b / 32)%N) in *.
  set (m16 := (b mod 16)%N) in *. set (q16 := (b / 16)%N) in *.
  set (m8 := (b mod 8)%N) in *. set (q8 := (b / 8)%N) in *.
  destruct (N.leb_spec 0xC2 b), (N.leb_spec b 0xDF); cbn [andb].
  { apply pending_first_unit; [lia | lia | lia |]. left. lia. }
  all: destruct (N.leb_spec 0xE0 b), (N.leb_spec b 0xEF); cbn [andb].
  all: try (apply pending_first_unit;
            [lia
            | destruct (N.eqb_spec b 0xE0); lia
            | destruct (N.eqb_spec b 0xED); lia
            | destruct (N.eqb_spec b 0xE0); [right; right; lia
                                            | right; left; lia]]).
  all: destruct (N.leb_spec 0xF0 b), (N.leb_spec b 0xF4); cbn [andb].
  all: try (apply pending_first_unit;
            [lia
            | destruct (N.eqb_spec b 0xF0); lia
            | destruct (N.eqb_spec b 0xF4); lia
            | destruct (N.eqb_spec b 0xF0); [right; right; lia
                                            | right; left; lia]]).
  all: try lia.
  all: rewrite bind_cons; exists 0xFFFD%N; eexists; (split; [done | lia]).
Qed.

Lemma ascii_prefix_of_decoded (marker : list N) : ∀ bytes,
  Forall (λ c, (c < 128)%N) marker →
  startsWith (Buffer_toString bytes) marker = true →
  ∃ rest, bytes = marker ++ rest.
Proof.
  induction marker as [|c marker IH]; intros bytes Hascii Hstart;
    [by exists bytes|].
  inversion Hascii as [|? ? Hc Hrest]; subst.
  destruct bytes as [|b bytes]; [done|].
  destruct (decide (b < 128)%N) as [Hb|Hb].
  - change (b :: bytes) with ([b] ++ bytes) in Hstart.
    rewrite Buffer_toString_ascii_app in Hstart by (by constructor).
    cbn [app startsWith] in Hstart.
    apply andb_prop in Hstart as [->%N.eqb_eq Hs].
    destruct (IH bytes Hrest Hs) as [rest ->]. by exists rest.
  - destruct (non_ascii_first_unit b bytes) as (u & us & Hdec & Hu); [lia|].
    rewrite Hdec in Hstart. cbn [startsWith] in Hstart.
    apply andb_prop in Hstart as [->%N.eqb_eq _]. lia.
Qed.

(** X17.  For a marker made of ASCII characters, a round reveals the marker
    exactly when the octets of its XOR begin with the octets of the
    marker: octets that are not valid UTF-8 elsewhere in the XOR, or in
    front of it, can neither hide nor fake the marker. *)
Theorem ascii_marker_is_octet_prefix IDENT_STR s1 s2 :
  Forall (λ c, (c < 128)%N) IDENT_STR →
  startsWith (round_xorStr s1 s2) IDENT_STR = true
  ↔ ∃ rest, round_xor s1 s2 = IDENT_STR ++ rest.
Proof.
  intros Hascii. unfold round_xorStr. split.
  - by apply ascii_prefix_of_decoded.
  - intros [rest ->]. rewrite Buffer_toString_ascii_app by done.
    apply startsWith_app.
Qed.

Lemma ascii_marker_is_octet_prefix_witness :
  ∃ rest, round_xor (js "6e340b9cffb37a989ca544") (js "27704ed2ab9e1bf4f5c621")
          = js "IDENT" ++ rest.
Proof.
  apply (ascii_marker_is_octet_prefix (js "IDENT")).
  - compute_done.
  - vm_compute. reflexivity.
Defined.

(** X18.  A coin whose signature verifies and whose commitment string
    starts with [BANK_STR] but has fewer than four dashes makes
    [acceptCoin] throw a [TypeError], with no draw made: the hash fields
    are missing and [parseCoin] calls [split] on [undefined]. *)
Theorem truncated_commitment_type_error {Rng}
        (randInt : N → Rng → N * Rng) (hash : list N → list N)
        (verify : option N → list N → list N → list N → bool)
        BANK_STR COIN_RIS_LENGTH (w : World Rng) :
  let c := the_coin w in
  verify (Coin.signature c) (Coin.n c) (Coin.e c) (Coin.toString c) = true →
  split dash (Coin.toString c) !! 0 = Some BANK_STR →
  occurrences dash (Coin.toString c) < 4 →
  acceptCoin randInt hash verify BANK_STR COIN_RIS_LENGTH w
  = (Throw TypeError, w).
Proof.
  intros c Hvalid Htag Hdashes. rewrite acceptCoin_unfold. cbn zeta. fold c.
  rewrite Hvalid. unfold parseCoin.
  rewrite bool_decide_eq_true_2 by done.
  pose proof (length_split dash (Coin.toString c)) as Hlen.
  destruct (split dash (Coin.toString c) !! 3) as [p3|] eqn:H3.
  - destruct (split dash (Coin.toString c) !! 4) as [p4|] eqn:H4; [|done].
    apply lookup_lt_Some in H4. lia.
  - done.
Qed.

Lemma truncated_commitment_type_error_witness :
  let w := mkWorld (fake_coin (js "BANK-20-guid-01,02") (Some 18%N)) 2%N in
  acceptCoin fake_randInt fake_hash fake_verify (js "BANK") 2 w
  = (Throw TypeError, w).
Proof.
  apply (truncated_commitment_type_error
           fake_randInt fake_hash fake_verify (js "BANK") 2
           (mkWorld (fake_coin (js "BANK-20-guid-01,02") (Some 18%N)) 2%N)).
  - vm_compute. reflexivity.
  - vm_compute. reflexivity.
  - vm_compute. lia.
Defined.
